(** * helm-docs: the values.yaml comment extractor

    A shallow embedding of [parseChartValuesFileComments]
    (pkg/document/template.go) together with the three package-level
    regular expressions it matches every line against.

    Go strings are byte sequences; they are modelled by [string], whose
    characters are the 256 byte values.  The result
    [map[string]ChartValueDescription] is a [gmap string _]. *)

From Stdlib Require Import Ascii.
From stdpp Require Import gmap strings list fin_maps.

(** ** Go's [regexp], restricted to the syntax the package uses *)

Module regexp.

(** A single-character matcher: a literal byte, [\s] or [.]. *)
Inductive cls :=
  | CLit (c : ascii)
  | CSpace
  | CAny.

(** The perl class [\s] of RE2 syntax is [[\t\n\f\r ]] (no vertical tab). *)
Definition is_space (a : ascii) : bool :=
  (Ascii.eqb a "009" || Ascii.eqb a "010" || Ascii.eqb a "012"
   || Ascii.eqb a "013" || Ascii.eqb a " ")%bool.

(** Without the [s] flag, [.] is any character but the line feed.  A line
    feed is a single byte in UTF-8 and never part of a longer sequence, and
    the bytes of an invalid sequence each count as one character, so on
    bytes [.*] runs exactly up to the next line feed. *)
Definition is_dot (a : ascii) : bool := negb (Ascii.eqb a "010").

Definition cls_match (c : cls) (a : ascii) : bool :=
  match c with
  | CLit x => Ascii.eqb x a
  | CSpace => is_space a
  | CAny => is_dot a
  end.

(** The compiled program.  [Save k] stores the current offset in capture
    slot [k]: group [i] owns the slots [2i] and [2i+1], group 0 being the
    whole match. *)
Inductive inst :=
  | Bol                 (* ^ : beginning of text *)
  | Eol                 (* $ : end of text *)
  | One (c : cls)       (* x  *)
  | Star (c : cls)      (* x* , greedy *)
  | Save (k : nat).     (* ( and ) *)

Record Regexp := { prog : list inst; numSubexp : nat }.

(** *** Parsing a pattern *)

(** [parse pat n open] reads [pat], [n] groups having been opened so far,
    [open] being the stack of the groups not closed yet.  Groups are
    numbered by their opening parenthesis.  Operators the package never
    writes ([+ ? | [ ] { }], other escapes) are refused. *)
Fixpoint parse (pat : string) (n : nat) (open : list nat)
  : option (list inst * nat) :=
  match pat with
  | EmptyString => match open with [] => Some ([], n) | _ => None end
  | String "^" rest => '(p, m) ← parse rest n open; Some (Bol :: p, m)
  | String "$" rest => '(p, m) ← parse rest n open; Some (Eol :: p, m)
  | String "(" rest =>
      '(p, m) ← parse rest (S n) (S n :: open); Some (Save (2 * S n) :: p, m)
  | String ")" rest =>
      match open with
      | g :: open' =>
          '(p, m) ← parse rest n open'; Some (Save (2 * g + 1) :: p, m)
      | [] => None
      end
  | String "\" (String "s" rest) =>
      match rest with
      | String "*" rest' => '(p, m) ← parse rest' n open; Some (Star CSpace :: p, m)
      | _ => '(p, m) ← parse rest n open; Some (One CSpace :: p, m)
      end
  | String "." rest =>
      match rest with
      | String "*" rest' => '(p, m) ← parse rest' n open; Some (Star CAny :: p, m)
      | _ => '(p, m) ← parse rest n open; Some (One CAny :: p, m)
      end
  | String "\" _ | String "*" _ | String "+" _ | String "?" _
  | String "|" _ | String "[" _ | String "]" _ | String "{" _
  | String "}" _ => None
  | String c rest =>
      match rest with
      | String "*" rest' => '(p, m) ← parse rest' n open; Some (Star (CLit c) :: p, m)
      | _ => '(p, m) ← parse rest n open; Some (One (CLit c) :: p, m)
      end
  end.

Definition Compile (pat : string) : option Regexp :=
  '(p, m) ← parse pat 0 [];
  Some {| prog := Save 0 :: p ++ [Save 1]; numSubexp := m |}.

(** [MustCompile] panics on a pattern that does not parse; the patterns
    below all do ([patterns_compile]), so the fallback is never taken. *)
Definition MustCompile (pat : string) : Regexp :=
  default {| prog := [Save 0; Save 1]; numSubexp := 0 |} (Compile pat).

(** *** Matching *)

(** Go returns the match a backtracking search finds first: leftmost, and
    each greedy [x*] as long as the rest of the pattern allows. *)
Fixpoint star (c : cls) (k : nat → string → option (list nat))
    (pos : nat) (s : string) : option (list nat) :=
  match s with
  | String a s' =>
      if cls_match c a then
        match star c k (S pos) s' with
        | Some caps => Some caps
        | None => k pos s
        end
      else k pos s
  | EmptyString => k pos s
  end.

Fixpoint exec (p : list inst) (caps : list nat) (pos : nat) (s : string)
  : option (list nat) :=
  match p with
  | [] => Some caps
  | Bol :: p' => if Nat.eqb pos 0 then exec p' caps pos s else None
  | Eol :: p' =>
      match s with
      | EmptyString => exec p' caps pos s
      | String _ _ => None
      end
  | One c :: p' =>
      match s with
      | String a s' => if cls_match c a then exec p' caps (S pos) s' else None
      | EmptyString => None
      end
  | Star c :: p' => star c (exec p' caps) pos s
  | Save k :: p' => exec p' (<[k := pos]> caps) pos s
  end.

(** Try every start offset from the left. *)
Fixpoint search (re : Regexp) (pos : nat) (s : string) {struct s}
  : option (list nat) :=
  match exec (prog re) (replicate (2 * S (numSubexp re)) 0) pos s with
  | Some caps => Some caps
  | None =>
      match s with
      | String _ s' => search re (S pos) s'
      | EmptyString => None
      end
  end.

Definition group (s : string) (caps : list nat) (i : nat) : string :=
  let b := caps !!! (2 * i) in
  let e := caps !!! (2 * i + 1) in
  String.substring b (e - b) s.

(** [re.FindStringSubmatch(s)]: the whole match followed by the text of
    each group, or the nil slice when nothing matches. *)
Definition FindStringSubmatch (re : Regexp) (s : string) : list string :=
  match search re 0 s with
  | Some caps => group s caps <$> seq 0 (S (numSubexp re))
  | None => []
  end.

End regexp.

Import regexp.

Definition valuesDescriptionRegex : Regexp := MustCompile "^\s*# (.*) -- (.*)$".
Definition commentContinuationRegex : Regexp := MustCompile "^\s*# (.*)$".
Definition defaultValueRegex : Regexp := MustCompile "^\s*# @default -- (.*)$".

(** ** The data model *)

Record ChartValueDescription := {
  Description : string;
  Default : string
}.

(** Go's [error] values, as far as this function can tell them apart. *)
Inductive error :=
  | ErrNotExist          (* os.ErrNotExist, ENOENT *)
  | ErrPermission        (* os.ErrPermission, EACCES *)
  | ErrIO                (* any other failing system call *)
  | ErrTooLong.          (* bufio.ErrTooLong: a line above the token limit *)

Definition os_IsNotExist (e : error) : bool :=
  match e with ErrNotExist => true | _ => false end.

(** What a [bufio.Scanner] over an opened file delivers: [Scan()] answers
    [true] once per element of [tokens], [Text()] being that element, then
    [false]; from then on [Err()] is [scanErr], [None] at a clean end of
    file.  The default split function yields lines without their
    terminator. *)
Record File := {
  tokens : list string;
  scanErr : option error
}.

(** The local variables of [parseChartValuesFileComments] that live across
    iterations of the scanning loop. *)
Record locals := {
  foundValuesComment : bool;
  key : string;
  description : string;
  keyToDescriptions : gmap string ChartValueDescription
}.

(** State before the loop: [var description, key string], an empty map,
    [foundValuesComment := false]. *)
Definition locals0 : locals :=
  {| foundValuesComment := false; key := ""; description := "";
     keyToDescriptions := ∅ |}.

(** One iteration of [for scanner.Scan() { ... }]. *)
Definition loop_body (st : locals) (currentLine : string) : locals :=
  if negb (foundValuesComment st) then
    let match_ := FindStringSubmatch valuesDescriptionRegex currentLine in
    if length match_ <? 3 then st
    else
      {| foundValuesComment := true;
         key := match_ !!! 1;
         description := match_ !!! 2;
         keyToDescriptions := keyToDescriptions st |}
  else
    let match_ := FindStringSubmatch defaultValueRegex currentLine in
    if 1 <? length match_ then
      {| foundValuesComment := false;
         key := key st;
         description := description st;
         keyToDescriptions :=
           <[key st := {| Description := description st;
                          Default := match_ !!! 1 |}]> (keyToDescriptions st) |}
    else
      let match_ := FindStringSubmatch commentContinuationRegex currentLine in
      if 1 <? length match_ then
        {| foundValuesComment := true;
           key := key st;
           description := description st +:+ " " +:+ match_ !!! 1;
           keyToDescriptions := keyToDescriptions st |}
      else
        {| foundValuesComment := false;
           key := key st;
           description := description st;
           keyToDescriptions :=
             <[key st := {| Description := description st; Default := "" |}]>
               (keyToDescriptions st) |}.

(** The whole loop over the lines the scanner delivers. *)
Definition scan (lines : list string) : locals :=
  fold_left loop_body lines locals0.

(** [isErrorInReadingNecessaryFile]: both branches log and answer [true]. *)
Definition isErrorInReadingNecessaryFile (filePath : string)
    (loadError : option error) : bool :=
  match loadError with
  | Some e => if os_IsNotExist e then true else true
  | None => false
  end.

Section FileSystem.

(** [path.Join] and [os.Open] belong to the Go library.  [os.Open] answers
    a file and a nil error, or a nil file and an error. *)
Variable path_Join : string → string → string.
Variable os_Open : string → option File * option error.

(** The function returns the pair (map, error).  After the loop it returns
    [keyToDescriptions, nil]; [scanner.Err()] is never called.  Scanning a
    nil file delivers no line. *)
Definition parseChartValuesFileComments (chartDirectory : string)
  : gmap string ChartValueDescription * option error :=
  let valuesPath := path_Join chartDirectory "values.yaml" in
  let '(valuesFile, err) := os_Open valuesPath in
  if isErrorInReadingNecessaryFile valuesPath err then (∅, err)
  else
    match valuesFile with
    | Some f => (keyToDescriptions (scan (tokens f)), None)
    | None => (∅, None)
    end.

End FileSystem.

(** ** Vocabulary for the statements *)

Fixpoint all_chars (p : ascii → bool) (s : string) : bool :=
  match s with
  | EmptyString => true
  | String a s' => p a && all_chars p s'
  end.

(** A run of [\s] characters. *)
Definition blank (ws : string) : bool := all_chars is_space ws.

(** A text without line feed: what [.*] can consume whole.  Every token of
    the line scanner is one. *)
Definition is_line (s : string) : bool := all_chars is_dot s.

(** The delimiter between key and description. *)
Definition delim : string := " -- ".

(** [occurs pat s]: [pat] is a substring of [s]. *)
Fixpoint occurs (pat s : string) : bool :=
  String.prefix pat s ||
  match s with
  | EmptyString => false
  | String _ s' => occurs pat s'
  end.

(** Which of the four line shapes the loop sees, by the tests it makes. *)
Definition starts_description (line : string) : bool :=
  negb (length (FindStringSubmatch valuesDescriptionRegex line) <? 3).
Definition is_default (line : string) : bool :=
  1 <? length (FindStringSubmatch defaultValueRegex line).
Definition is_continuation (line : string) : bool :=
  negb (is_default line)
  && (1 <? length (FindStringSubmatch commentContinuationRegex line)).
Definition is_terminator (line : string) : bool :=
  negb (is_default line)
  && negb (1 <? length (FindStringSubmatch commentContinuationRegex line)).

(** The two groups of a description-start line. *)
Definition description_key (line : string) : string :=
  FindStringSubmatch valuesDescriptionRegex line !!! 1.
Definition description_text (line : string) : string :=
  FindStringSubmatch valuesDescriptionRegex line !!! 2.

(** Text a continuation line contributes, and the default a closing line
    records. *)
Definition continuation_text (line : string) : string :=
  FindStringSubmatch commentContinuationRegex line !!! 1.
Definition closing_default (line : string) : string :=
  if is_default line then FindStringSubmatch defaultValueRegex line !!! 1
  else "".

(** [k] is the key of the text [k -- t] when no other cut at a delimiter
    has a longer left part: the delimiter after [k] is the last one. *)
Definition longest_key (k t : string) : Prop :=
  ∀ k' t' : string,
    k +:+ delim +:+ t = k' +:+ delim +:+ t' →
    String.length k' ≤ String.length k.

(** [names_key k line]: the description-start pattern matches [line] with
    [k] as its first group. *)
Definition names_key (k : string) (line : string) : bool :=
  starts_description line && String.eqb (description_key line) k.

(** [writes_key k st lines]: on its way over [lines] from the state [st],
    the loop assigns [keyToDescriptions[key]] with [key] equal to [k]: an
    occurrence of [k] is closed. *)
Fixpoint writes_key (k : string) (st : locals) (lines : list string) : bool :=
  match lines with
  | [] => false
  | x :: lines' =>
      (foundValuesComment st && negb (is_continuation x)
       && String.eqb (key st) k)
      || writes_key k (loop_body st x) lines'
  end.

(** The part of [valuesDescriptionRegex] that follows the first group: the
    delimiter, then the second group up to the end of the text. *)
Definition after_key : list inst :=
  [Save 3; One (CLit " "); One (CLit "-"); One (CLit "-"); One (CLit " ");
   Save 4; Star CAny; Save 5; Eol; Save 1].

(** For the examples: paths joined with a slash, a file system where every
    path opens with the same outcome, and the state of the loop while a key
    is pending over an empty map. *)
Definition slash_join (dir file : string) : string := dir +:+ "/" +:+ file.
Definition every_path (outcome : option File * option error)
  : string → option File * option error :=
  λ _, outcome.
Definition pending (k d : string) : locals :=
  {| foundValuesComment := true; key := k; description := d;
     keyToDescriptions := ∅ |}.

(** ** The rest of the chart loader *)

(** The structs of the package.  A nil slice and an empty slice are both
    the empty list; [Type] is a keyword here, hence [Type_]. *)
Module ChartMetaMaintainer.
Record t := { Email : string; Name : string; Url : string }.
End ChartMetaMaintainer.

Module ChartMeta.
Record t := {
  ApiVersion : string;
  Name : string;
  Version : string;
  KubeVersion : string;
  Description : string;
  Keywords : list string;
  Home : string;
  Sources : list string;
  Maintainers : list ChartMetaMaintainer.t;
  Type_ : string;
  Engine : string;
  icon : string;
  AppVersion : string;
  Deprecated : bool;
  tillerVersion : string
}.
(** [ChartMeta{}] *)
Definition zero : t :=
  {| ApiVersion := ""; Name := ""; Version := ""; KubeVersion := "";
     Description := ""; Keywords := []; Home := ""; Sources := [];
     Maintainers := []; Type_ := ""; Engine := ""; icon := "";
     AppVersion := ""; Deprecated := false; tillerVersion := "" |}.
End ChartMeta.

Module ChartRequirementsItem.
Record t := { Name : string; Version : string; Repository : string }.
End ChartRequirementsItem.

Module ChartRequirements.
Record t := { Dependencies : list ChartRequirementsItem.t }.
(** [ChartRequirements{}] *)
Definition zero : t := {| Dependencies := [] |}.
End ChartRequirements.

(** [fmt.Sprintf("%s/%s", requirement.Repository, requirement.Name)] *)
Definition requirementKey (requirement : ChartRequirementsItem.t) : string :=
  ChartRequirementsItem.Repository requirement +:+ "/" +:+
  ChartRequirementsItem.Name requirement.

(** The [less] function handed to [sort.Slice]: Go compares strings byte by
    byte, as [String.ltb] does. *)
Definition requirementLess (a b : ChartRequirementsItem.t) : bool :=
  String.ltb (requirementKey a) (requirementKey b).

(** [os.IsNotExist] on an error that may be nil. *)
Definition os_IsNotExist_err (err : option error) : bool :=
  match err with
  | Some e => os_IsNotExist e
  | None => false
  end.

(** A call either returns or panics with a value. *)
Inductive outcome (P A : Type) :=
  | Returns (a : A)
  | Panics (p : P).
Arguments Returns {P A} a.
Arguments Panics {P A} p.

Definition outcome_bind {P A B} (m : outcome P A) (k : A → outcome P B)
  : outcome P B :=
  match m with
  | Returns a => k a
  | Panics p => Panics p
  end.

Section ChartFiles.

(** The Go library and [yaml.v2] are taken as they come: [os.Stat] (every
    caller drops the file info), [ioutil.ReadFile], [os.Open],
    [yaml.Unmarshal] at the three types it is used at, and [sort.Slice].
    The file system does not change during a call, so each is a function
    of the path. *)
Variable path_Join : string → string → string.
Variable os_Stat : string → option error.
Variable ioutil_ReadFile : string → string * option error.
Variable os_Open : string → option File * option error.
Variable yaml_error : Type.
Variable Values : Type.
Variable nil_Values : Values.
Variable make_Values : Values.
Variable yaml_Unmarshal_ChartMeta
  : string → ChartMeta.t → ChartMeta.t * option yaml_error.
Variable yaml_Unmarshal_ChartRequirements
  : string → ChartRequirements.t → ChartRequirements.t * option yaml_error.
Variable yaml_Unmarshal_Values
  : string → Values → Values * option yaml_error.
Variable sort_Slice
  : (ChartRequirementsItem.t → ChartRequirementsItem.t → bool) →
    list ChartRequirementsItem.t → list ChartRequirementsItem.t.

(** What a panic carries: the error of [ioutil.ReadFile] or the one of
    [yaml.Unmarshal]. *)
Inductive panic_value :=
  | PanicRead (e : error)
  | PanicYaml (e : yaml_error).

Definition getYamlFileContents (filename : string)
  : outcome panic_value (string * option error) :=
  if os_IsNotExist_err (os_Stat filename) then Returns ("", os_Stat filename)
  else
    let '(yamlFileContents, err) := ioutil_ReadFile filename in
    match err with
    | Some e => Panics (PanicRead e)
    | None => Returns (yamlFileContents, None)
    end.

(** [yamlLoadAndCheck], given [yaml.Unmarshal] at the type of [out]. *)
Definition yamlLoadAndCheck {T : Type}
    (unmarshal : string → T → T * option yaml_error)
    (yamlFileContents : string) (out : T) : outcome panic_value T :=
  let '(out', err) := unmarshal yamlFileContents out in
  match err with
  | Some e => Panics (PanicYaml e)
  | None => Returns out'
  end.

Definition parseChartFile (chartDirectory : string)
  : outcome panic_value (ChartMeta.t * option error) :=
  let chartYamlPath := path_Join chartDirectory "Chart.yaml" in
  let chartMeta := ChartMeta.zero in
  outcome_bind (getYamlFileContents chartYamlPath)
    (λ '(yamlFileContents, err),
       if isErrorInReadingNecessaryFile chartYamlPath err
       then Returns (chartMeta, err)
       else
         outcome_bind
           (yamlLoadAndCheck yaml_Unmarshal_ChartMeta yamlFileContents chartMeta)
           (λ chartMeta, Returns (chartMeta, None))).

(** After the test on [apiVersion], the part both branches share. *)
Definition parseChartRequirementsFile (chartDirectory : string)
    (apiVersion : string)
  : outcome panic_value (ChartRequirements.t * option error) :=
  let load (requirementsPath : string) :=
    let chartRequirements := ChartRequirements.zero in
    outcome_bind (getYamlFileContents requirementsPath)
      (λ '(yamlFileContents, err),
         if isErrorInReadingNecessaryFile requirementsPath err
         then Returns (chartRequirements, err)
         else
           outcome_bind
             (yamlLoadAndCheck yaml_Unmarshal_ChartRequirements
                yamlFileContents chartRequirements)
             (λ chartRequirements,
                Returns
                  ({| ChartRequirements.Dependencies :=
                        sort_Slice requirementLess
                          (ChartRequirements.Dependencies chartRequirements) |},
                   None))) in
  if String.eqb apiVersion "v1" then
    let requirementsPath := path_Join chartDirectory "requirements.yaml" in
    if os_IsNotExist_err (os_Stat requirementsPath)
    then Returns ({| ChartRequirements.Dependencies := [] |}, None)
    else load requirementsPath
  else load (path_Join chartDirectory "Chart.yaml").

Definition parseChartValuesFile (chartDirectory : string)
  : outcome panic_value (Values * option error) :=
  let valuesPath := path_Join chartDirectory "values.yaml" in
  let values := make_Values in
  outcome_bind (getYamlFileContents valuesPath)
    (λ '(yamlFileContents, err),
       if isErrorInReadingNecessaryFile valuesPath err
       then Returns (values, err)
       else
         outcome_bind
           (yamlLoadAndCheck yaml_Unmarshal_Values yamlFileContents values)
           (λ values, Returns (values, None))).

Record ChartDocumentationInfo := {
  ChartMeta_ : ChartMeta.t;
  ChartRequirements_ : ChartRequirements.t;
  ChartDirectory : string;
  ChartValues : Values;
  ChartValuesDescriptions : gmap string ChartValueDescription
}.

(** Each stage assigns its field, also when it fails, and the first error
    ends the function; [chartDocInfo.ApiVersion] is the field promoted from
    the embedded [ChartMeta]. *)
Definition ParseChartInformation (chartDirectory : string)
  : outcome panic_value (ChartDocumentationInfo * option error) :=
  outcome_bind (parseChartFile chartDirectory)
    (λ '(chartMeta, err),
       let info1 :=
         {| ChartMeta_ := chartMeta;
            ChartRequirements_ := ChartRequirements.zero;
            ChartDirectory := chartDirectory;
            ChartValues := nil_Values;
            ChartValuesDescriptions := ∅ |} in
       match err with
       | Some _ => Returns (info1, err)
       | None =>
  outcome_bind
    (parseChartRequirementsFile chartDirectory (ChartMeta.ApiVersion chartMeta))
    (λ '(chartRequirements, err),
       let info2 :=
         {| ChartMeta_ := chartMeta;
            ChartRequirements_ := chartRequirements;
            ChartDirectory := chartDirectory;
            ChartValues := nil_Values;
            ChartValuesDescriptions := ∅ |} in
       match err with
       | Some _ => Returns (info2, err)
       | None =>
  outcome_bind (parseChartValuesFile chartDirectory)
    (λ '(values, err),
       let info3 :=
         {| ChartMeta_ := chartMeta;
            ChartRequirements_ := chartRequirements;
            ChartDirectory := chartDirectory;
            ChartValues := values;
            ChartValuesDescriptions := ∅ |} in
       match err with
       | Some _ => Returns (info3, err)
       | None =>
           let '(descriptions, err) :=
             parseChartValuesFileComments path_Join os_Open chartDirectory in
           Returns
             ({| ChartMeta_ := chartMeta;
                 ChartRequirements_ := chartRequirements;
                 ChartDirectory := chartDirectory;
                 ChartValues := values;
                 ChartValuesDescriptions := descriptions |},
              err)
       end)
       end)
       end).

End ChartFiles.

(** For the examples: a chart directory whose files all read as empty and
    decode to the value handed in, except that [os.Stat] finds no
    [values.yaml]; [sort.Slice] has nothing to reorder. *)
Definition stat_without_values (p : string) : option error :=
  if String.eqb p "chart/values.yaml" then Some ErrNotExist else None.
Definition example_ParseChartInformation
    (os_Open : string → option File * option error) (chartDirectory : string)
  : outcome (panic_value unit) (ChartDocumentationInfo unit * option error) :=
  ParseChartInformation slash_join stat_without_values (λ _, ("", None))
    os_Open unit unit tt tt
    (λ _ m, (m, None)) (λ _ r, (r, None)) (λ _ v, (v, None)) (λ _ l, l)
    chartDirectory.

(** ** Facts about strings *)

Module StringFacts.

(** stdpp keeps [String.append] folded under [simpl]; these two equations
    unfold it one step. *)
Lemma append_nil_l (s : string) : "" +:+ s = s.
Proof. reflexivity. Qed.

Lemma append_cons (x : ascii) (a b : string) :
  String x a +:+ b = String x (a +:+ b).
Proof. reflexivity. Qed.

Ltac unapp := rewrite ?append_cons, ?append_nil_l.
Ltac unapp_in H := rewrite ?append_cons, ?append_nil_l in H.

Lemma append_nil_r (s : string) : s +:+ "" = s.
Proof. induction s as [|a s IH]; unapp; [done | by f_equal]. Qed.

Lemma append_assoc (a b c : string) : (a +:+ b) +:+ c = a +:+ b +:+ c.
Proof. induction a as [|x a IH]; unapp; [done | by f_equal]. Qed.

Lemma length_append (a b : string) :
  String.length (a +:+ b) = String.length a + String.length b.
Proof. induction a as [|x a IH]; unapp; simpl; [done | by f_equal]. Qed.

Lemma all_chars_app p (a b : string) :
  all_chars p (a +:+ b) = all_chars p a && all_chars p b.
Proof.
  induction a as [|x a IH]; unapp; simpl; [done |].
  rewrite IH. by destruct (p x).
Qed.

Lemma substring_skip (a b : string) n m :
  String.substring (String.length a + n) m (a +:+ b) = String.substring n m b.
Proof. induction a as [|x a IH]; unapp; simpl; done. Qed.

Lemma substring_prefix (a b : string) :
  String.substring 0 (String.length a) (a +:+ b) = a.
Proof.
  induction a as [|x a IH]; unapp; simpl.
  - by destruct b.
  - by rewrite IH.
Qed.

Lemma substring_all (a : string) :
  String.substring 0 (String.length a) a = a.
Proof. rewrite <- (append_nil_r a) at 2. apply substring_prefix. Qed.

(** Two ways to cut the same string: the shorter prefix is a prefix of the
    longer one. *)
Lemma append_eq_split (a b a' b' : string) :
  a +:+ b = a' +:+ b' →
  String.length a ≤ String.length a' →
  ∃ d, a' = a +:+ d ∧ b = d +:+ b'.
Proof.
  revert a'. induction a as [|x a IH]; intros a' Heq Hlen.
  - by exists a'.
  - destruct a' as [|y a']; simpl in Hlen; [lia |].
    unapp_in Heq. injection Heq as -> Heq.
    destruct (IH a' Heq) as (d & -> & ->); [lia |].
    by exists d.
Qed.

Lemma append_inv_same_length (a b a' b' : string) :
  a +:+ b = a' +:+ b' →
  String.length a = String.length a' →
  a = a' ∧ b = b'.
Proof.
  intros Heq Hlen.
  destruct (append_eq_split a b a' b' Heq) as (d & -> & ->); [lia |].
  rewrite length_append in Hlen.
  destruct d; simpl in *; [| lia].
  by rewrite append_nil_r.
Qed.

Lemma prefix_app (p b : string) : String.prefix p (p +:+ b) = true.
Proof.
  induction p as [|x p IH]; unapp; simpl; [by destruct b |].
  by destruct (ascii_dec x x).
Qed.

Lemma occurs_prefix (pat s : string) :
  String.prefix pat s = true → occurs pat s = true.
Proof.
  intros H. destruct s as [|a s].
  - change (String.prefix pat "" || false = true). by rewrite H.
  - change (String.prefix pat (String a s) || occurs pat s = true).
    by rewrite H.
Qed.

Lemma occurs_app (pat a b : string) : occurs pat (a +:+ pat +:+ b) = true.
Proof.
  induction a as [|x a IH]; unapp.
  - apply occurs_prefix, prefix_app.
  - simpl. rewrite IH. apply orb_true_r.
Qed.

End StringFacts.

(** ** Facts about the matcher *)

Module RegexpFacts.
Import StringFacts.

#[local] Arguments cls_match : simpl never.
#[local] Arguments is_space : simpl never.
#[local] Arguments is_dot : simpl never.
#[local] Arguments blank : simpl never.
#[local] Arguments is_line : simpl never.

Lemma blank_cons a (ws : string) : blank (String a ws) = is_space a && blank ws.
Proof. reflexivity. Qed.

Lemma is_line_cons a (t : string) : is_line (String a t) = is_dot a && is_line t.
Proof. reflexivity. Qed.

Lemma cls_match_lit x a : cls_match (CLit x) a = Ascii.eqb x a.
Proof. reflexivity. Qed.

Lemma cls_match_lit_refl x : cls_match (CLit x) x = true.
Proof. apply Ascii.eqb_refl. Qed.

Lemma cls_match_space a : cls_match CSpace a = is_space a.
Proof. reflexivity. Qed.

Lemma cls_match_any a : cls_match CAny a = is_dot a.
Proof. reflexivity. Qed.

#[local] Arguments exec : simpl never.

(** The equations of [exec], one per instruction. *)
Lemma exec_nil caps pos (s : string) : exec [] caps pos s = Some caps.
Proof. reflexivity. Qed.

Lemma exec_Bol p caps (s : string) : exec (Bol :: p) caps 0 s = exec p caps 0 s.
Proof. reflexivity. Qed.

Lemma exec_Eol_nil p caps pos : exec (Eol :: p) caps pos "" = exec p caps pos "".
Proof. reflexivity. Qed.

Lemma exec_Eol_cons p caps pos a (s : string) :
  exec (Eol :: p) caps pos (String a s) = None.
Proof. reflexivity. Qed.

Lemma exec_One_nil c p caps pos : exec (One c :: p) caps pos "" = None.
Proof. reflexivity. Qed.

Lemma exec_One_cons c p caps pos a (s : string) :
  exec (One c :: p) caps pos (String a s)
  = if cls_match c a then exec p caps (S pos) s else None.
Proof. reflexivity. Qed.

Lemma exec_Star c p caps pos (s : string) :
  exec (Star c :: p) caps pos s = star c (exec p caps) pos s.
Proof. reflexivity. Qed.

Lemma exec_Save k p caps pos (s : string) :
  exec (Save k :: p) caps pos s = exec p (<[k := pos]> caps) pos s.
Proof. reflexivity. Qed.

Ltac exec_step :=
  repeat first
    [ rewrite exec_Save | rewrite exec_Bol | rewrite exec_Star
    | rewrite exec_One_cons, cls_match_lit_refl
    | rewrite exec_Eol_nil | rewrite exec_nil ].

Ltac exec_step_in H :=
  repeat first
    [ rewrite exec_Save in H | rewrite exec_Bol in H | rewrite exec_Star in H
    | rewrite exec_One_cons, cls_match_lit_refl in H
    | rewrite exec_Eol_nil in H | rewrite exec_nil in H ].

Section star.
Variable c : cls.
Variable k : nat → string → option (list nat).

(** When [x*] fails, the rest of the pattern fails after every run of
    [x] the text starts with. *)
Lemma star_None_inv (s : string) pos :
  star c k pos s = None →
  ∀ pre suf, s = pre +:+ suf → all_chars (cls_match c) pre = true →
    k (pos + String.length pre) suf = None.
Proof.
  revert pos. induction s as [|a s IH]; intros pos Hs pre suf Heq Hpre.
  - destruct pre; [| done]. unapp_in Heq. subst suf. simpl in *.
    by rewrite Nat.add_0_r.
  - simpl in Hs. destruct pre as [|b pre].
    + unapp_in Heq. subst suf. simpl. rewrite Nat.add_0_r.
      destruct (cls_match c a); [| done].
      by destruct (star c k (S pos) s).
    + unapp_in Heq. injection Heq as <- ->.
      simpl in Hpre. apply andb_prop in Hpre as [Ha Hpre].
      rewrite Ha in Hs.
      destruct (star c k (S pos) (pre +:+ suf)) eqn:Hrec; [done |].
      simpl. rewrite <- Nat.add_succ_comm.
      by apply (IH (S pos)).
Qed.

(** A greedy [x*] succeeds as soon as some run of [x] leaves a text the
    rest of the pattern accepts. *)
Lemma star_is_Some (pre suf : string) pos :
  all_chars (cls_match c) pre = true →
  is_Some (k (pos + String.length pre) suf) →
  is_Some (star c k pos (pre +:+ suf)).
Proof.
  intros Hpre [r Hr].
  destruct (star c k pos (pre +:+ suf)) eqn:Hs; [by eexists |].
  rewrite (star_None_inv _ _ Hs pre suf) in Hr; done.
Qed.

(** When [x*] succeeds, it took the longest run of [x] after which the
    rest of the pattern succeeds. *)
Lemma star_Some_inv (s : string) pos r :
  star c k pos s = Some r →
  ∃ pre suf, s = pre +:+ suf ∧ all_chars (cls_match c) pre = true ∧
    k (pos + String.length pre) suf = Some r ∧
    ∀ pre' suf', s = pre' +:+ suf' →
      all_chars (cls_match c) pre' = true →
      String.length pre < String.length pre' →
      k (pos + String.length pre') suf' = None.
Proof.
  revert pos. induction s as [|a s IH]; intros pos Hs.
  - exists "", "". simpl in *. rewrite Nat.add_0_r.
    repeat split; try done.
    intros [|b pre'] suf' Heq _ Hlen; simpl in *; [lia | done].
  - simpl in Hs.
    destruct (cls_match c a) eqn:Ha.
    + destruct (star c k (S pos) s) as [r'|] eqn:Hrec.
      * injection Hs as ->.
        destruct (IH _ Hrec) as (pre & suf & -> & Hpre & Hk & Hmax).
        exists (String a pre), suf. simpl. rewrite Ha, Hpre.
        rewrite <- Nat.add_succ_comm. repeat split; try done.
        intros [|b pre'] suf' Heq Hall Hlen; simpl in *; [lia |].
        unapp_in Heq. injection Heq as <- Heq.
        apply andb_prop in Hall as [_ Hall].
        rewrite <- Nat.add_succ_comm. apply Hmax; [done | done | lia].
      * exists "", (String a s). simpl. rewrite Nat.add_0_r.
        repeat split; try done.
        intros [|b pre'] suf' Heq Hall Hlen; simpl in *; [lia |].
        unapp_in Heq. injection Heq as <- ->.
        apply andb_prop in Hall as [_ Hall].
        rewrite <- Nat.add_succ_comm.
        by apply (star_None_inv _ _ Hrec).
    + exists "", (String a s). simpl. rewrite Nat.add_0_r.
      repeat split; try done.
      intros [|b pre'] suf' Heq Hall Hlen; simpl in *; [lia |].
      unapp_in Heq. injection Heq as <- ->.
      by rewrite Ha in Hall.
Qed.

End star.

(** The three patterns parse, so [MustCompile] does not panic. *)
Lemma patterns_compile :
  Compile "^\s*# (.*) -- (.*)$" = Some valuesDescriptionRegex
  ∧ Compile "^\s*# (.*)$" = Some commentContinuationRegex
  ∧ Compile "^\s*# @default -- (.*)$" = Some defaultValueRegex.
Proof. repeat split. Qed.

(** The three programs. *)
Lemma prog_valuesDescriptionRegex :
  prog valuesDescriptionRegex =
    [Save 0; Bol; Star CSpace; One (CLit "#"); One (CLit " ");
     Save 2; Star CAny; Save 3;
     One (CLit " "); One (CLit "-"); One (CLit "-"); One (CLit " ");
     Save 4; Star CAny; Save 5; Eol; Save 1]
  ∧ numSubexp valuesDescriptionRegex = 2.
Proof. split; reflexivity. Qed.

Lemma prog_commentContinuationRegex :
  prog commentContinuationRegex =
    [Save 0; Bol; Star CSpace; One (CLit "#"); One (CLit " ");
     Save 2; Star CAny; Save 3; Eol; Save 1]
  ∧ numSubexp commentContinuationRegex = 1.
Proof. split; reflexivity. Qed.

Lemma prog_defaultValueRegex :
  prog defaultValueRegex =
    [Save 0; Bol; Star CSpace; One (CLit "#"); One (CLit " ");
     One (CLit "@"); One (CLit "d"); One (CLit "e"); One (CLit "f");
     One (CLit "a"); One (CLit "u"); One (CLit "l"); One (CLit "t");
     One (CLit " "); One (CLit "-"); One (CLit "-"); One (CLit " ");
     Save 2; Star CAny; Save 3; Eol; Save 1]
  ∧ numSubexp defaultValueRegex = 1.
Proof. split; reflexivity. Qed.

(** A pattern that starts with [^] can only match at offset 0. *)
Lemma search_anchored re p (s : string) :
  prog re = Save 0 :: Bol :: p →
  search re 0 s = exec (prog re) (replicate (2 * S (numSubexp re)) 0) 0 s.
Proof.
  intros Hp.
  assert (∀ (u : string) pos, search re (S pos) u = None) as Hlater.
  { induction u as [|a u IH]; intros pos; simpl; rewrite Hp, exec_Save; [done |].
    apply IH. }
  destruct s as [|a s]; simpl;
    destruct (exec _ _ 0 _) eqn:He; done.
Qed.

(** A final dot-star group before [$] takes the rest of the text, which
    must hold no line feed. *)
Lemma star_dot_end j caps pos (t : string) :
  star CAny (exec [Save j; Eol; Save 1] caps) pos t =
    if is_line t then
      Some (<[1 := pos + String.length t]>
              (<[j := pos + String.length t]> caps))
    else None.
Proof.
  revert pos. induction t as [|a t IH]; intros pos; simpl.
  - exec_step. by rewrite Nat.add_0_r.
  - rewrite IH, is_line_cons, cls_match_any, exec_Save, exec_Eol_cons.
    destruct (is_dot a); simpl; [| done].
    rewrite <- Nat.add_succ_comm.
    by destruct (is_line t).
Qed.

(** [\s*#]: the blanks are skipped up to the hash sign. *)
Lemma star_space_hash p caps pos (ws rest : string) :
  blank ws = true →
  star CSpace (exec (One (CLit "#") :: p) caps) pos (ws +:+ String "#" rest)
  = exec p caps (S (pos + String.length ws)) rest.
Proof.
  revert pos. induction ws as [|a ws IH]; intros pos Hws; unapp.
  - simpl. exec_step. by rewrite Nat.add_0_r.
  - rewrite blank_cons in Hws. apply andb_prop in Hws as [Ha Hws].
    simpl. rewrite cls_match_space, Ha, (IH _ Hws), <- Nat.add_succ_comm.
    destruct (exec p caps _ rest); [done |].
    rewrite exec_One_cons, cls_match_lit.
    destruct (Ascii.eqb_spec "#" a) as [<- |]; done.
Qed.

Lemma star_space_hash_inv p caps pos (s : string) r :
  star CSpace (exec (One (CLit "#") :: p) caps) pos s = Some r →
  ∃ ws rest, s = ws +:+ String "#" rest ∧ blank ws = true ∧
    exec p caps (S (pos + String.length ws)) rest = Some r.
Proof.
  intros Hs. apply star_Some_inv in Hs as (ws & suf & -> & Hws & Hk & _).
  destruct suf as [|a rest]; [done |].
  rewrite exec_One_cons, cls_match_lit in Hk.
  destruct (Ascii.eqb_spec "#" a) as [<- |]; [| done].
  by exists ws, rest.
Qed.

(** Reading a group off the capture slots. *)
Lemma group_at (line pre mid suf : string) caps i b e :
  caps !! (2 * i) = Some b →
  caps !! (2 * i + 1) = Some e →
  line = pre +:+ mid +:+ suf →
  b = String.length pre →
  e = String.length pre + String.length mid →
  group line caps i = mid.
Proof.
  intros Hb He -> -> ->. unfold group.
  rewrite (list_lookup_total_correct _ _ _ Hb).
  rewrite (list_lookup_total_correct _ _ _ He).
  replace (String.length pre + String.length mid - String.length pre)
    with (String.length mid) by lia.
  rewrite <- (Nat.add_0_r (String.length pre)) at 1.
  by rewrite substring_skip, substring_prefix.
Qed.

(** *** [commentContinuationRegex] *)

Lemma continuation_match (ws t : string) :
  blank ws = true → is_line t = true →
  FindStringSubmatch commentContinuationRegex (ws +:+ "# " +:+ t)
  = [ws +:+ "# " +:+ t; t].
Proof.
  intros Hws Ht. unfold FindStringSubmatch.
  destruct prog_commentContinuationRegex as [Hp Hn].
  rewrite (search_anchored _ _ _ Hp), Hp, Hn. unapp. exec_step.
  rewrite (star_space_hash _ _ _ _ _ Hws). exec_step.
  rewrite star_dot_end, Ht. simpl.
  f_equal; [| f_equal].
  - apply (group_at _ "" _ "" _ 0 0 (S (S (String.length ws + String.length t))));
      try done.
    + by rewrite append_nil_r.
    + rewrite !length_append. simpl. lia.
  - apply (group_at _ (ws +:+ "# ") _ "" _ 1 (S (S (String.length ws)))
             (S (S (String.length ws + String.length t)))); try done.
    + by rewrite append_nil_r, append_assoc.
    + rewrite length_append. simpl. lia.
    + rewrite length_append. simpl. lia.
Qed.

(** *** [defaultValueRegex] *)

Lemma default_match (ws t : string) :
  blank ws = true → is_line t = true →
  FindStringSubmatch defaultValueRegex (ws +:+ "# @default -- " +:+ t)
  = [ws +:+ "# @default -- " +:+ t; t].
Proof.
  intros Hws Ht. unfold FindStringSubmatch.
  destruct prog_defaultValueRegex as [Hp Hn].
  rewrite (search_anchored _ _ _ Hp), Hp, Hn. unapp. exec_step.
  rewrite (star_space_hash _ _ _ _ _ Hws). exec_step.
  rewrite star_dot_end, Ht. simpl.
  f_equal; [| f_equal].
  - eapply (group_at _ "" _ "" _ 0); try done.
    + by rewrite append_nil_r.
    + rewrite !length_append. simpl. lia.
  - eapply (group_at _ (ws +:+ "# @default -- ") _ "" _ 1); try done.
    + by rewrite append_nil_r, append_assoc.
    + rewrite length_append. simpl. lia.
    + rewrite length_append. simpl. lia.
Qed.

(** *** [valuesDescriptionRegex] *)

Lemma exec_after_key caps pos (t : string) :
  exec after_key caps pos (delim +:+ t) =
    if is_line t then
      Some (<[1 := S (S (S (S pos))) + String.length t]>
           (<[5 := S (S (S (S pos))) + String.length t]>
           (<[4 := S (S (S (S pos)))]>
           (<[3 := pos]> caps))))
    else None.
Proof.
  unfold after_key, delim. unapp. exec_step. by rewrite star_dot_end.
Qed.

Lemma exec_after_key_inv caps pos (u : string) r :
  exec after_key caps pos u = Some r → ∃ t, u = delim +:+ t.
Proof.
  unfold after_key. rewrite exec_Save. intros H.
  repeat match type of H with
  | exec (One _ :: _) _ _ ?s = Some _ =>
      destruct s as [|? ?]; [done |];
      rewrite exec_One_cons, cls_match_lit in H;
      match type of H with
      | (if Ascii.eqb ?x ?a then _ else _) = _ =>
          destruct (Ascii.eqb_spec x a) as [<- |]; [| done]
      end
  end.
  by eexists.
Qed.

(** Blanks followed by a hash sign can be read off a line in one way. *)
Lemma blank_hash_unique (ws ws' r r' : string) :
  blank ws = true → blank ws' = true →
  ws +:+ String "#" r = ws' +:+ String "#" r' →
  ws = ws' ∧ r = r'.
Proof.
  revert ws'. induction ws as [|a ws IH]; intros [|b ws'] Hws Hws' Heq;
    unapp_in Heq.
  - by injection Heq.
  - injection Heq as <- _. by rewrite blank_cons in Hws'.
  - injection Heq as -> _. by rewrite blank_cons in Hws.
  - injection Heq as -> Heq.
    rewrite blank_cons in Hws, Hws'.
    apply andb_prop in Hws as [_ Hws]. apply andb_prop in Hws' as [_ Hws'].
    destruct (IH ws' Hws Hws' Heq) as [-> ->]. done.
Qed.

(** A computable sufficient test: the delimiter does not occur again from
    its own last blank on. *)
Lemma longest_key_no_later (k t : string) :
  occurs delim (" " +:+ t) = false → longest_key k t.
Proof.
  intros Hocc k' t' Heq.
  destruct (decide (String.length k' ≤ String.length k)) as [|Hlt]; [done |].
  exfalso.
  destruct (append_eq_split k _ k' _ Heq) as (d & -> & Hd); [lia |].
  rewrite length_append in Hlt.
  unfold delim in Hd.
  destruct d as [|a1 [|a2 [|a3 d]]]; unapp_in Hd; simpl in Hlt;
    [lia | done | done |].
  injection Hd as _ _ _ Hd.
  change (String " " t) with (" " +:+ t) in Hd.
  rewrite Hd in Hocc.
  change (occurs delim (d +:+ delim +:+ t') = false) in Hocc.
  by rewrite occurs_app in Hocc.
Qed.

(** Only one cut of a text is at its last delimiter. *)
Lemma longest_key_unique (k t k' t' : string) :
  k +:+ delim +:+ t = k' +:+ delim +:+ t' →
  longest_key k t → longest_key k' t' →
  k = k' ∧ t = t'.
Proof.
  intros Heq Hmax Hmax'.
  destruct (append_inv_same_length k (delim +:+ t) k' (delim +:+ t') Heq)
    as [<- Ht].
  { apply Nat.le_antisymm; [by apply (Hmax' k t) | by apply (Hmax k' t')]. }
  by apply (inj (String.append delim)) in Ht as <-.
Qed.

Lemma description_exec_inv (line : string) r :
  exec (prog valuesDescriptionRegex) (replicate 6 0) 0 line = Some r →
  ∃ ws k t : string,
    blank ws = true ∧ is_line k = true ∧ is_line t = true ∧
    line = ws +:+ "# " +:+ k +:+ delim +:+ t ∧
    longest_key k t ∧
    r = [0; String.length line;
         String.length ws + 2; String.length ws + 2 + String.length k;
         String.length ws + 2 + String.length k + 4; String.length line].
Proof.
  destruct prog_valuesDescriptionRegex as [Hp _]. rewrite Hp.
  exec_step. intros H.
  apply star_space_hash_inv in H as (ws & rest & -> & Hws & H).
  destruct rest as [|a rest]; [done |].
  rewrite exec_One_cons, cls_match_lit in H.
  destruct (Ascii.eqb_spec " " a) as [<- |]; [| done].
  exec_step_in H. fold after_key in H.
  apply star_Some_inv in H as (k & suf & -> & Hk & H & Hmax).
  change (is_line k = true) in Hk.
  destruct (exec_after_key_inv _ _ _ _ H) as [t ->].
  rewrite exec_after_key in H.
  destruct (is_line t) eqn:Ht; [| done].
  injection H as <-.
  exists ws, k, t. repeat split; try done.
  - intros k' t' Heq.
    destruct (decide (String.length k' ≤ String.length k)) as [|Hlt]; [done |].
    exfalso.
    assert (is_line (k' +:+ delim +:+ t') = true) as Hl.
    { rewrite <- Heq. unfold is_line. rewrite !all_chars_app.
      fold (is_line k) (is_line t). by rewrite Hk, Ht. }
    unfold is_line in Hl. rewrite !all_chars_app in Hl.
    apply andb_prop in Hl as [Hk' Hl]. apply andb_prop in Hl as [_ Ht'].
    specialize (Hmax k' (delim +:+ t') Heq Hk' ltac:(lia)).
    rewrite exec_after_key in Hmax.
    fold (is_line t') in Ht'. by rewrite Ht' in Hmax.
  - simpl. rewrite !length_append. simpl. rewrite !length_append. simpl.
    repeat f_equal; lia.
Qed.

Lemma description_match_inv (line : string) :
  FindStringSubmatch valuesDescriptionRegex line ≠ [] →
  ∃ ws k t : string,
    blank ws = true ∧ is_line k = true ∧ is_line t = true ∧
    line = ws +:+ "# " +:+ k +:+ delim +:+ t ∧
    longest_key k t ∧
    FindStringSubmatch valuesDescriptionRegex line = [line; k; t].
Proof.
  unfold FindStringSubmatch.
  destruct prog_valuesDescriptionRegex as [Hp Hn].
  rewrite (search_anchored _ _ _ Hp), Hn.
  change (replicate (2 * 3) 0) with (replicate 6 0).
  destruct (exec _ _ 0 line) as [r|] eqn:He; [intros _ | done].
  apply description_exec_inv in He
    as (ws & k & t & Hws & Hk & Ht & Hline & Hmax & ->).
  exists ws, k, t. repeat split; try done.
  simpl. f_equal; [| f_equal; [| f_equal]].
  - eapply (group_at _ "" _ "" _ 0); try done.
    by rewrite append_nil_r.
  - eapply (group_at _ (ws +:+ "# ") _ (delim +:+ t) _ 1); try done.
    + by rewrite Hline, append_assoc.
    + rewrite length_append. simpl. lia.
    + rewrite length_append. simpl. lia.
  - eapply (group_at _ (ws +:+ "# " +:+ k +:+ delim) _ "" _ 2); try done.
    + by rewrite Hline, append_nil_r, !append_assoc.
    + rewrite ?length_append. unfold delim. simpl. lia.
    + rewrite Hline, ?length_append. unfold delim. simpl. lia.
Qed.

Lemma description_match_exists (ws k t : string) :
  blank ws = true → is_line k = true → is_line t = true →
  FindStringSubmatch valuesDescriptionRegex
    (ws +:+ "# " +:+ k +:+ delim +:+ t) ≠ [].
Proof.
  intros Hws Hk Ht. unfold FindStringSubmatch.
  destruct prog_valuesDescriptionRegex as [Hp Hn].
  rewrite (search_anchored _ _ _ Hp), Hp, Hn. unapp. exec_step.
  rewrite (star_space_hash _ _ _ _ _ Hws). exec_step. fold after_key.
  edestruct (star_is_Some CAny) as [r ->]; [exact Hk | | done].
  rewrite exec_after_key, Ht. by eexists.
Qed.

(** The match is the cut at the last delimiter. *)
Lemma description_match (ws k t : string) :
  blank ws = true → is_line k = true → is_line t = true →
  longest_key k t →
  FindStringSubmatch valuesDescriptionRegex
    (ws +:+ "# " +:+ k +:+ delim +:+ t)
  = [ws +:+ "# " +:+ k +:+ delim +:+ t; k; t].
Proof.
  intros Hws Hk Ht Hmax.
  destruct (description_match_inv _ (description_match_exists ws k t Hws Hk Ht))
    as (ws' & k' & t' & Hws' & Hk' & Ht' & Heq & Hmax' & ->).
  unapp_in Heq.
  apply blank_hash_unique in Heq as [<- Heq]; [| done | done].
  injection Heq as Heq.
  by destruct (longest_key_unique k t k' t' Heq Hmax Hmax') as [<- <-].
Qed.

(** The nil slice or the whole match and two groups: nothing else. *)
Lemma description_match_length (line : string) :
  length (FindStringSubmatch valuesDescriptionRegex line) = 0
  ∨ length (FindStringSubmatch valuesDescriptionRegex line) = 3.
Proof.
  destruct (FindStringSubmatch valuesDescriptionRegex line) eqn:Hm;
    [by left | right].
  destruct (description_match_inv line) as (?&?&?&?&?&?&?&?& Hr);
    [by rewrite Hm |].
  by rewrite <- Hm, Hr.
Qed.

(** *** What a match tells about the line *)

(** Reads literal characters off the text in [H]. *)
Ltac eat_literals H :=
  repeat match type of H with
  | exec (One (CLit _) :: _) _ _ ?s = Some _ =>
      destruct s as [|? ?]; [done |];
      rewrite exec_One_cons, cls_match_lit in H;
      match type of H with
      | (if Ascii.eqb ?x ?a then _ else _) = _ =>
          destruct (Ascii.eqb_spec x a) as [<- |]; [| done]
      end
  end.

Lemma continuation_match_inv (line : string) :
  FindStringSubmatch commentContinuationRegex line ≠ [] →
  ∃ ws t : string,
    blank ws = true ∧ is_line t = true ∧ line = ws +:+ "# " +:+ t.
Proof.
  unfold FindStringSubmatch.
  destruct prog_commentContinuationRegex as [Hp Hn].
  rewrite (search_anchored _ _ _ Hp), Hp, Hn.
  destruct (exec _ _ 0 line) as [r|] eqn:H; [intros _ | done].
  exec_step_in H.
  apply star_space_hash_inv in H as (ws & rest & -> & Hws & H).
  eat_literals H. exec_step_in H.
  rewrite star_dot_end in H.
  match type of H with
  | (if is_line ?t then _ else _) = _ =>
      destruct (is_line t) eqn:Ht; [| done]; by exists ws, t
  end.
Qed.

Lemma default_match_inv (line : string) :
  FindStringSubmatch defaultValueRegex line ≠ [] →
  ∃ ws t : string,
    blank ws = true ∧ is_line t = true ∧
    line = ws +:+ "# @default -- " +:+ t.
Proof.
  unfold FindStringSubmatch.
  destruct prog_defaultValueRegex as [Hp Hn].
  rewrite (search_anchored _ _ _ Hp), Hp, Hn.
  destruct (exec _ _ 0 line) as [r|] eqn:H; [intros _ | done].
  exec_step_in H.
  apply star_space_hash_inv in H as (ws & rest & -> & Hws & H).
  eat_literals H. exec_step_in H.
  rewrite star_dot_end in H.
  match type of H with
  | (if is_line ?t then _ else _) = _ =>
      destruct (is_line t) eqn:Ht; [| done]; by exists ws, t
  end.
Qed.

(** The tests of the loop, read on the shape of the line. *)
Lemma is_comment_iff (line : string) :
  (1 <? length (FindStringSubmatch commentContinuationRegex line)) = true ↔
  ∃ ws t : string,
    blank ws = true ∧ is_line t = true ∧ line = ws +:+ "# " +:+ t.
Proof.
  split.
  - intros H. apply continuation_match_inv. intros Hnil.
    by rewrite Hnil in H.
  - intros (ws & t & Hws & Ht & ->). by rewrite continuation_match.
Qed.

Lemma is_default_iff (line : string) :
  is_default line = true ↔
  ∃ ws t : string,
    blank ws = true ∧ is_line t = true ∧
    line = ws +:+ "# @default -- " +:+ t.
Proof.
  unfold is_default. split.
  - intros H. apply default_match_inv. intros Hnil. by rewrite Hnil in H.
  - intros (ws & t & Hws & Ht & ->). by rewrite default_match.
Qed.

Lemma starts_description_iff (line : string) :
  starts_description line = true ↔
  ∃ ws k t : string,
    blank ws = true ∧ is_line k = true ∧ is_line t = true ∧
    line = ws +:+ "# " +:+ k +:+ delim +:+ t.
Proof.
  unfold starts_description. split.
  - intros H.
    destruct (description_match_inv line) as (ws & k & t & ? & ? & ? & ? & _).
    { intros Hnil. by rewrite Hnil in H. }
    by exists ws, k, t.
  - intros (ws & k & t & Hws & Hk & Ht & ->).
    pose proof (description_match_exists ws k t Hws Hk Ht) as Hne.
    destruct (description_match_inv _ Hne) as (?&?&?&?&?&?&?&?& ->).
    done.
Qed.

(** The groups of a match hold no line feed. *)
Lemma description_groups_lines (line : string) :
  is_line (description_key line) = true ∧
  is_line (description_text line) = true.
Proof.
  unfold description_key, description_text.
  destruct (FindStringSubmatch valuesDescriptionRegex line) eqn:Hm; [done |].
  destruct (description_match_inv line) as (ws & k & t & ? & ? & ? & ? & _ & Hr).
  { by rewrite Hm. }
  rewrite <- Hm, Hr. done.
Qed.

Lemma continuation_text_line (line : string) :
  is_line (continuation_text line) = true.
Proof.
  unfold continuation_text.
  destruct (FindStringSubmatch commentContinuationRegex line) eqn:Hm; [done |].
  destruct (continuation_match_inv line) as (ws & t & Hws & Ht & ->).
  { by rewrite Hm. }
  rewrite <- Hm, continuation_match; done.
Qed.

Lemma closing_default_line (line : string) :
  is_line (closing_default line) = true.
Proof.
  unfold closing_default.
  destruct (is_default line) eqn:Hd; [| done].
  apply is_default_iff in Hd as (ws & t & Hws & Ht & ->).
  by rewrite default_match.
Qed.

End RegexpFacts.




(** ** Facts about the scanning loop *)

Module ScanFacts.
Import StringFacts RegexpFacts.

Lemma scan_app (xs ys : list string) :
  scan (xs ++ ys) = fold_left loop_body ys (scan xs).
Proof. apply fold_left_app. Qed.

Lemma scan_snoc (xs : list string) (x : string) :
  scan (xs ++ [x]) = loop_body (scan xs) x.
Proof. by rewrite scan_app. Qed.

(** The four transitions. *)
Lemma loop_body_skip st (line : string) :
  foundValuesComment st = false → starts_description line = false →
  loop_body st line = st.
Proof.
  unfold loop_body, starts_description. intros -> H. simpl.
  by apply negb_false_iff in H as ->.
Qed.

Lemma loop_body_start st (line : string) :
  foundValuesComment st = false → starts_description line = true →
  loop_body st line =
    {| foundValuesComment := true;
       key := description_key line;
       description := description_text line;
       keyToDescriptions := keyToDescriptions st |}.
Proof.
  unfold loop_body, starts_description. intros -> H. simpl.
  by apply negb_true_iff in H as ->.
Qed.

Lemma loop_body_continue st (line : string) :
  foundValuesComment st = true → is_continuation line = true →
  loop_body st line =
    {| foundValuesComment := true;
       key := key st;
       description := description st +:+ " " +:+ continuation_text line;
       keyToDescriptions := keyToDescriptions st |}.
Proof.
  unfold loop_body, is_continuation, is_default. intros -> H. simpl.
  apply andb_prop in H as [H1 H2].
  apply negb_true_iff in H1. by rewrite H1, H2.
Qed.

Lemma loop_body_close st (line : string) :
  foundValuesComment st = true → is_continuation line = false →
  loop_body st line =
    {| foundValuesComment := false;
       key := key st;
       description := description st;
       keyToDescriptions :=
         <[key st := {| Description := description st;
                        Default := closing_default line |}]>
           (keyToDescriptions st) |}.
Proof.
  unfold loop_body, is_continuation, closing_default, is_default.
  intros -> H. simpl.
  destruct (1 <? length (FindStringSubmatch defaultValueRegex line));
    [done |].
  simpl in H. by rewrite H.
Qed.

(** Left-nested concatenation with a blank is a join. *)
Lemma concat_app_head (a b : string) (cs : list string) :
  String.concat " " ((a +:+ b) :: cs) = a +:+ String.concat " " (b :: cs).
Proof. destruct cs; simpl; [done | by rewrite append_assoc]. Qed.

Lemma fold_join (t : string) (cs : list string) :
  fold_left (λ d c, d +:+ " " +:+ c) cs t = String.concat " " (t :: cs).
Proof.
  revert t. induction cs as [|c cs IH]; intros t; [done |].
  simpl fold_left. rewrite IH.
  rewrite concat_app_head. change (" " +:+ c) with (String " " c).
  destruct cs; simpl; unapp; done.
Qed.

Lemma continue_all st (conts : list string) :
  foundValuesComment st = true →
  forallb is_continuation conts = true →
  fold_left loop_body conts st =
    {| foundValuesComment := true;
       key := key st;
       description :=
         fold_left (λ d c, d +:+ " " +:+ c)
           (continuation_text <$> conts) (description st);
       keyToDescriptions := keyToDescriptions st |}.
Proof.
  revert st. induction conts as [|c conts IH]; intros st Hst Hall.
  - by destruct st; simpl in *; subst.
  - simpl in Hall. apply andb_prop in Hall as [Hc Hall].
    simpl fold_left. rewrite (loop_body_continue _ _ Hst Hc).
    by rewrite IH.
Qed.

(** A whole occurrence: a description-start line met while searching and
    the continuation lines after it. *)
Lemma accumulate st (l : string) (conts : list string) :
  foundValuesComment st = false → starts_description l = true →
  forallb is_continuation conts = true →
  fold_left loop_body (l :: conts) st =
    {| foundValuesComment := true;
       key := description_key l;
       description :=
         String.concat " " (description_text l :: (continuation_text <$> conts));
       keyToDescriptions := keyToDescriptions st |}.
Proof.
  intros Hst Hl Hall. simpl fold_left.
  rewrite (loop_body_start _ _ Hst Hl), continue_all; [| done | done].
  simpl. by rewrite fold_join.
Qed.

Lemma accumulate_close st (l : string) (conts : list string) (closing : string) :
  foundValuesComment st = false → starts_description l = true →
  forallb is_continuation conts = true →
  is_continuation closing = false →
  fold_left loop_body (l :: conts ++ [closing]) st =
    let d := String.concat " "
               (description_text l :: (continuation_text <$> conts)) in
    {| foundValuesComment := false;
       key := description_key l;
       description := d;
       keyToDescriptions :=
         <[description_key l :=
             {| Description := d; Default := closing_default closing |}]>
           (keyToDescriptions st) |}.
Proof.
  intros Hst Hl Hall Hc.
  rewrite app_comm_cons, fold_left_app, (accumulate _ _ _ Hst Hl Hall).
  simpl fold_left. by rewrite loop_body_close.
Qed.

(** While searching, lines that start no description leave the state
    alone. *)
Lemma searching_only st (lines : list string) :
  foundValuesComment st = false →
  forallb (λ l, negb (starts_description l)) lines = true →
  fold_left loop_body lines st = st.
Proof.
  intros Hst. induction lines as [|l lines IH]; intros Hall; [done |].
  simpl in Hall. apply andb_prop in Hall as [Hl Hall].
  apply negb_true_iff in Hl.
  simpl fold_left. rewrite (loop_body_skip _ _ Hst Hl). by apply IH.
Qed.

(** A record under [k] stays as long as no later description-start line
    names [k]. *)
Lemma keep_record (k : string) rec (post : list string) st :
  keyToDescriptions st !! k = Some rec →
  (foundValuesComment st = true → key st ≠ k) →
  forallb (λ x, negb (names_key k x)) post = true →
  keyToDescriptions (fold_left loop_body post st) !! k = Some rec.
Proof.
  revert st. induction post as [|x post IH]; intros st Hrec Hkey Hall;
    [done |].
  simpl in Hall. apply andb_prop in Hall as [Hx Hall].
  apply negb_true_iff in Hx. unfold names_key in Hx.
  simpl fold_left. apply IH; [| | done].
  - destruct (foundValuesComment st) eqn:Hst.
    + destruct (is_continuation x) eqn:Hc.
      * by rewrite loop_body_continue.
      * rewrite loop_body_close by done. simpl.
        rewrite lookup_insert_ne; [done | by apply Hkey].
    + destruct (starts_description x) eqn:Hs.
      * by rewrite loop_body_start.
      * by rewrite loop_body_skip.
  - destruct (foundValuesComment st) eqn:Hst.
    + destruct (is_continuation x) eqn:Hc.
      * rewrite loop_body_continue by done. simpl. intros _. by apply Hkey.
      * by rewrite loop_body_close.
    + destruct (starts_description x) eqn:Hs.
      * rewrite loop_body_start by done. simpl. intros _.
        simpl in Hx. by apply String.eqb_neq.
      * rewrite loop_body_skip by done. by rewrite Hst.
Qed.

(** An iteration leaves the map alone, or it closes the pending
    occurrence and writes under its key. *)
Lemma loop_body_map_cases st (line : string) :
  keyToDescriptions (loop_body st line) = keyToDescriptions st
  ∨ (foundValuesComment st = true ∧ is_continuation line = false ∧
     keyToDescriptions (loop_body st line)
     = <[key st := {| Description := description st;
                      Default := closing_default line |}]>
         (keyToDescriptions st)).
Proof.
  destruct (foundValuesComment st) eqn:Hst.
  - destruct (is_continuation line) eqn:Hc.
    + left. by rewrite loop_body_continue.
    + right. by rewrite loop_body_close.
  - left. destruct (starts_description line) eqn:Hs.
    + by rewrite loop_body_start.
    + by rewrite loop_body_skip.
Qed.

(** A record under [k] stays as long as no later occurrence of [k] is
    closed. *)
Lemma keep_record_unwritten (k : string) rec (post : list string) st :
  keyToDescriptions st !! k = Some rec →
  writes_key k st post = false →
  keyToDescriptions (fold_left loop_body post st) !! k = Some rec.
Proof.
  revert st. induction post as [|x post IH]; intros st Hrec Hw; [done |].
  simpl in Hw. apply orb_false_elim in Hw as [Hx Hw].
  simpl fold_left. apply IH; [| done].
  destruct (loop_body_map_cases st x) as [-> | (Hst & Hc & ->)]; [done |].
  rewrite Hst, Hc in Hx. simpl in Hx. apply String.eqb_neq in Hx.
  by rewrite lookup_insert_ne.
Qed.

(** A loop that ends while accumulating ends inside an occurrence that
    was never closed; the map is the one from before that occurrence. *)
Lemma accumulating_inv (lines : list string) :
  foundValuesComment (scan lines) = true →
  ∃ (pre : list string) (l : string) (conts : list string),
    lines = pre ++ l :: conts ∧
    foundValuesComment (scan pre) = false ∧
    starts_description l = true ∧
    forallb is_continuation conts = true.
Proof.
  induction lines as [|x lines IH] using rev_ind; [done |].
  rewrite scan_snoc.
  destruct (foundValuesComment (scan lines)) eqn:Hst.
  - destruct (is_continuation x) eqn:Hc.
    + intros _. destruct IH as (pre & l & conts & -> & Hpre & Hl & Hall);
        [done |].
      exists pre, l, (conts ++ [x]). repeat split; try done.
      * by rewrite <- app_assoc.
      * rewrite forallb_app, Hall. simpl. by rewrite Hc.
    + by rewrite loop_body_close.
  - destruct (starts_description x) eqn:Hs.
    + intros _. by exists lines, x, [].
    + rewrite loop_body_skip by done. by rewrite Hst.
Qed.

(** The two ways the function leaves [os.Open]. *)
Lemma parse_opened path_Join os_Open (chartDirectory : string) f :
  os_Open (path_Join chartDirectory "values.yaml") = (Some f, None) →
  parseChartValuesFileComments path_Join os_Open chartDirectory
  = (keyToDescriptions (scan (tokens f)), None).
Proof. unfold parseChartValuesFileComments. by intros ->. Qed.

Lemma parse_open_failed path_Join os_Open (chartDirectory : string) vf e :
  os_Open (path_Join chartDirectory "values.yaml") = (vf, Some e) →
  parseChartValuesFileComments path_Join os_Open chartDirectory
  = (∅, Some e).
Proof.
  unfold parseChartValuesFileComments. intros ->. simpl. by destruct e.
Qed.

(** *** Where the records come from *)

(** An iteration leaves the map alone or writes under the pending key. *)
Lemma loop_body_map st (line : string) :
  keyToDescriptions (loop_body st line) = keyToDescriptions st
  ∨ (foundValuesComment st = true ∧ is_continuation line = false ∧
     keyToDescriptions (loop_body st line)
     = <[key st := {| Description := description st;
                      Default := closing_default line |}]>
         (keyToDescriptions st)).
Proof. apply loop_body_map_cases. Qed.

(** Every record was written by a closed occurrence. *)
Lemma record_provenance (lines : list string) (k : string) rec :
  keyToDescriptions (scan lines) !! k = Some rec →
  ∃ (pre : list string) (l : string) (conts : list string)
    (closing : string) (post : list string),
    lines = pre ++ (l :: conts ++ [closing]) ++ post ∧
    foundValuesComment (scan pre) = false ∧
    starts_description l = true ∧
    description_key l = k ∧
    forallb is_continuation conts = true ∧
    is_continuation closing = false ∧
    rec = {| Description :=
               String.concat " "
                 (description_text l :: (continuation_text <$> conts));
             Default := closing_default closing |}.
Proof.
  revert k rec. induction lines as [|x lines IH] using rev_ind;
    intros k rec Hrec; [done |].
  rewrite scan_snoc in Hrec.
  assert (keyToDescriptions (scan lines) !! k = Some rec →
          ∃ pre l conts closing post,
            lines ++ [x] = pre ++ (l :: conts ++ [closing]) ++ post ∧
            foundValuesComment (scan pre) = false ∧
            starts_description l = true ∧
            description_key l = k ∧
            forallb is_continuation conts = true ∧
            is_continuation closing = false ∧
            rec = {| Description :=
                       String.concat " "
                         (description_text l :: (continuation_text <$> conts));
                     Default := closing_default closing |}) as Hold.
  { intros Hk.
    destruct (IH _ _ Hk)
      as (pre & l & conts & closing & post & -> & ? & ? & ? & ? & ? & ?).
    exists pre, l, conts, closing, (post ++ [x]).
    repeat split; try done. by rewrite <- !app_assoc. }
  destruct (loop_body_map (scan lines) x) as [Heq | (Hst & Hc & Heq)];
    rewrite Heq in Hrec; [by apply Hold |].
  destruct (decide (key (scan lines) = k)) as [Hk | Hk].
  - rewrite Hk, lookup_insert_eq in Hrec. injection Hrec as <-.
    destruct (accumulating_inv lines Hst)
      as (pre & l & conts & -> & Hpre & Hl & Hall).
    rewrite scan_app, accumulate in Hk by done.
    exists pre, l, conts, x, []. repeat split; try done.
    + by rewrite app_nil_r, <- !app_assoc.
    + by rewrite scan_app, accumulate.
  - rewrite lookup_insert_ne in Hrec by done. by apply Hold.
Qed.

(** A join of texts without line feed has none. *)
Lemma is_line_concat (ts : list string) :
  forallb is_line ts = true → is_line (String.concat " " ts) = true.
Proof.
  induction ts as [|t ts IH]; [done |]. simpl.
  intros H. apply andb_prop in H as [Ht Hts].
  destruct ts as [|t' ts]; [done |].
  unfold is_line in *. rewrite !all_chars_app, Ht. simpl.
  by apply IH.
Qed.

(** *** How the map grows *)

Lemma dom_grows st (lines : list string) :
  dom (keyToDescriptions st)
  ⊆ dom (keyToDescriptions (fold_left loop_body lines st)).
Proof.
  revert st. induction lines as [|x lines IH]; intros st; [done |].
  simpl fold_left. etrans; [| apply IH].
  destruct (loop_body_map st x) as [-> | (_ & _ & ->)]; [done |].
  rewrite dom_insert. set_solver.
Qed.

(** Scanning from a searching state with map [m0] is scanning from the
    start and laying the result over [m0]. *)
Lemma fold_over (m0 : gmap string ChartValueDescription)
    (lines : list string) st1 st2 :
  foundValuesComment st1 = foundValuesComment st2 →
  (foundValuesComment st1 = true →
   key st1 = key st2 ∧ description st1 = description st2) →
  keyToDescriptions st1 = keyToDescriptions st2 ∪ m0 →
  keyToDescriptions (fold_left loop_body lines st1)
  = keyToDescriptions (fold_left loop_body lines st2) ∪ m0.
Proof.
  revert st1 st2. induction lines as [|x lines IH];
    intros st1 st2 Hf Hkd Hm; [done |].
  simpl fold_left.
  destruct (foundValuesComment st2) eqn:Hst2.
  - destruct (Hkd Hf) as [Hk Hd].
    destruct (is_continuation x) eqn:Hc.
    + rewrite (loop_body_continue st1), (loop_body_continue st2) by done.
      apply IH; simpl; [done | by rewrite Hk, Hd | done].
    + rewrite (loop_body_close st1), (loop_body_close st2) by done.
      apply IH; simpl; [done | done |].
      by rewrite Hk, Hd, Hm, insert_union_l.
  - destruct (starts_description x) eqn:Hs.
    + rewrite (loop_body_start st1), (loop_body_start st2) by done.
      apply IH; simpl; done.
    + rewrite (loop_body_skip st1), (loop_body_skip st2) by done.
      apply IH; [congruence | intros Ht; congruence | done].
Qed.

(** One record at most per description-start line. *)
Lemma size_bound (lines : list string) :
  size (keyToDescriptions (scan lines))
  + (if foundValuesComment (scan lines) then 1 else 0)
  ≤ length (List.filter starts_description lines).
Proof.
  induction lines as [|x lines IH] using rev_ind; [done |].
  rewrite scan_snoc, List.filter_app, length_app.
  assert (length (List.filter starts_description [x])
          = if starts_description x then 1 else 0) as ->.
  { simpl. by destruct (starts_description x). }
  destruct (foundValuesComment (scan lines)) eqn:Hst.
  - destruct (is_continuation x) eqn:Hc.
    + rewrite loop_body_continue by done. simpl.
      destruct (starts_description x); lia.
    + rewrite loop_body_close by done. simpl.
      pose proof (map_size_insert (key (scan lines))
                    {| Description := description (scan lines);
                       Default := closing_default x |}
                    (keyToDescriptions (scan lines))) as Hsz.
      destruct (keyToDescriptions (scan lines) !! key (scan lines));
        rewrite Hsz; unfold id; destruct (starts_description x); lia.
  - destruct (starts_description x) eqn:Hs.
    + rewrite loop_body_start by done. simpl. lia.
    + rewrite loop_body_skip, Hst by done. simpl. lia.
Qed.

End ScanFacts.

(** ** The properties of the extractor *)

Import StringFacts RegexpFacts ScanFacts.

(** C1, as the code has it: while accumulating, a comment line of
    description-start shape that is not a default-override line is a
    continuation like any other comment line.  Everything after the hash
    sign and its blank, that is the key, the delimiter and the text, is
    appended to the pending description after one blank; no record is
    written and the loop goes on accumulating. *)
Theorem C1_description_shape_continues st (line : string) :
  foundValuesComment st = true →
  starts_description line = true →
  is_default line = false →
  loop_body st line =
    {| foundValuesComment := true;
       key := key st;
       description :=
         description st +:+ " " +:+
           description_key line +:+ delim +:+ description_text line;
       keyToDescriptions := keyToDescriptions st |}.
Proof.
  intros Hst Hs Hd.
  destruct (description_match_inv line)
    as (ws & k & t & Hws & Hk & Ht & Hline & _ & Hm).
  { unfold starts_description in Hs. intros Hnil. by rewrite Hnil in Hs. }
  assert (FindStringSubmatch commentContinuationRegex line
          = [line; k +:+ delim +:+ t]) as Hc.
  { rewrite Hline. apply continuation_match; [done |].
    unfold is_line in *. by rewrite !all_chars_app, Hk, Ht. }
  rewrite loop_body_continue; [| done |].
  - unfold continuation_text, description_key, description_text.
    by rewrite Hc, Hm.
  - unfold is_continuation. by rewrite Hd, Hc.
Qed.

Lemma C1_description_shape_continues_witness :
  foundValuesComment (pending "a" "b") = true ∧
  starts_description "  # c -- d" = true ∧
  is_default "  # c -- d" = false ∧
  loop_body (pending "a" "b") "  # c -- d" =
    {| foundValuesComment := true;
       key := "a";
       description :=
         "b" +:+ " " +:+
           description_key "  # c -- d" +:+ delim +:+
           description_text "  # c -- d";
       keyToDescriptions := ∅ |}.
Proof.
  split; [reflexivity |]. split; [reflexivity |]. split; [reflexivity |].
  apply (C1_description_shape_continues (pending "a" "b") "  # c -- d");
    reflexivity.
Defined.

(** C1 as stated fails: with key [a] pending, the line [# c -- d] writes
    no record for [a] and does not go back to searching; its text ends up
    in the pending description. *)
Lemma C1_counterexample :
  starts_description "# c -- d" = true ∧
  loop_body (pending "a" "b") "# c -- d" = pending "a" "b c -- d" ∧
  ¬ (foundValuesComment (loop_body (pending "a" "b") "# c -- d") = false ∧
     keyToDescriptions (loop_body (pending "a" "b") "# c -- d") !! "a"
     = Some {| Description := "b"; Default := "" |}).
Proof.
  split; [reflexivity |]. split; [reflexivity |].
  intros [H _]. vm_compute in H. discriminate H.
Qed.

(** C2, as the code has it: the first group is greedy.  For every line made
    of blanks, a hash sign, a blank, a key, the delimiter and a text,
    met while searching, the key the loop records is the longest run that
    is still followed by a delimiter, that is the part before the last
    delimiter of the line, and the description is what follows that last
    delimiter.  They are the given key and text exactly when the delimiter
    between them is the last one, as it is when it does not occur again
    from its closing blank on. *)
Theorem C2_key_runs_to_last_delimiter st (ws k t : string) :
  foundValuesComment st = false →
  blank ws = true → is_line k = true → is_line t = true →
  ∃ k' t' : string,
    k +:+ delim +:+ t = k' +:+ delim +:+ t' ∧
    longest_key k' t' ∧
    loop_body st (ws +:+ "# " +:+ k +:+ delim +:+ t) =
      {| foundValuesComment := true;
         key := k';
         description := t';
         keyToDescriptions := keyToDescriptions st |} ∧
    (longest_key k t ↔ k' = k ∧ t' = t) ∧
    (occurs delim (" " +:+ t) = false → k' = k ∧ t' = t).
Proof.
  intros Hst Hws Hk Ht.
  pose proof (description_match_exists ws k t Hws Hk Ht) as Hne.
  destruct (description_match_inv _ Hne)
    as (ws' & k' & t' & Hws' & Hk' & Ht' & Heq & Hmax & Hm).
  unapp_in Heq.
  apply blank_hash_unique in Heq as [<- Heq]; [| done | done].
  injection Heq as Heq.
  assert (longest_key k t → k' = k ∧ t' = t) as Huniq.
  { intros Hmax'.
    by destruct (longest_key_unique k t k' t' Heq Hmax' Hmax) as [<- <-]. }
  exists k', t'. split; [done |]. split; [done |]. split; [| split].
  - rewrite loop_body_start; [| done |].
    + unfold description_key, description_text. by rewrite Hm.
    + unfold starts_description. by rewrite Hm.
  - split; [done |]. by intros [-> ->].
  - intros Hocc. by apply Huniq, longest_key_no_later.
Qed.

Lemma C2_key_runs_to_last_delimiter_witness :
  foundValuesComment locals0 = false ∧
  blank "  " = true ∧ is_line "a" = true ∧ is_line "b -- c" = true ∧
  ∃ k' t' : string,
    "a" +:+ delim +:+ "b -- c" = k' +:+ delim +:+ t' ∧
    longest_key k' t' ∧
    loop_body locals0 ("  " +:+ "# " +:+ "a" +:+ delim +:+ "b -- c") =
      {| foundValuesComment := true;
         key := k';
         description := t';
         keyToDescriptions := keyToDescriptions locals0 |} ∧
    (longest_key "a" "b -- c" ↔ k' = "a" ∧ t' = "b -- c") ∧
    (occurs delim (" " +:+ "b -- c") = false → k' = "a" ∧ t' = "b -- c").
Proof.
  split; [reflexivity |]. split; [reflexivity |].
  split; [reflexivity |]. split; [reflexivity |].
  apply (C2_key_runs_to_last_delimiter locals0 "  " "a" "b -- c");
    reflexivity.
Defined.

(** C2 as stated fails: on [# a -- b -- c] the key is not the shortest run
    [a] with text [b -- c]; the loop records key [a -- b] and text [c]. *)
Lemma C2_counterexample :
  loop_body locals0 "# a -- b -- c" =
    {| foundValuesComment := true; key := "a -- b"; description := "c";
       keyToDescriptions := ∅ |} ∧
  ¬ (key (loop_body locals0 "# a -- b -- c") = "a" ∧
     description (loop_body locals0 "# a -- b -- c") = "b -- c").
Proof.
  split; [reflexivity |].
  intros [H _]. vm_compute in H. discriminate H.
Qed.

(** C3: when the file opens and the scanner stops while the loop is
    accumulating, the lines split into a prefix after which the loop was
    searching, the description-start line of the pending key and
    continuation lines only, and the function returns, with a nil error,
    the map of the prefix: what it returns for a file that holds the prefix
    alone.  The pending key is in the result only if the prefix put it
    there, with the record the prefix gave it, and the pending description
    is in no record. *)
Theorem C3_trailing_accumulation_dropped
    path_Join os_Open (chartDirectory : string) f :
  os_Open (path_Join chartDirectory "values.yaml") = (Some f, None) →
  foundValuesComment (scan (tokens f)) = true →
  ∃ (pre : list string) (l : string) (conts : list string),
    tokens f = pre ++ l :: conts ∧
    foundValuesComment (scan pre) = false ∧
    starts_description l = true ∧
    forallb is_continuation conts = true ∧
    key (scan (tokens f)) = description_key l ∧
    description (scan (tokens f)) =
      String.concat " " (description_text l :: (continuation_text <$> conts)) ∧
    parseChartValuesFileComments path_Join os_Open chartDirectory
    = (keyToDescriptions (scan pre), None) ∧
    parseChartValuesFileComments path_Join os_Open chartDirectory
    = parseChartValuesFileComments path_Join
        (every_path (Some {| tokens := pre; scanErr := None |}, None))
        chartDirectory ∧
    (parseChartValuesFileComments path_Join os_Open chartDirectory).1
      !! description_key l
    = keyToDescriptions (scan pre) !! description_key l.
Proof.
  intros Hopen Hacc. rewrite (parse_opened _ _ _ _ Hopen).
  destruct (accumulating_inv _ Hacc)
    as (pre & l & conts & Hf & Hpre & Hl & Hall).
  exists pre, l, conts. rewrite Hf, scan_app, accumulate by done.
  repeat split; done.
Qed.

Lemma C3_trailing_accumulation_dropped_witness :
  every_path
    (Some {| tokens := ["# a -- one"; "a: 1"; "# a -- two"; "# more text"];
             scanErr := None |}, None)
    (slash_join "chart" "values.yaml")
  = (Some {| tokens := ["# a -- one"; "a: 1"; "# a -- two"; "# more text"];
             scanErr := None |}, None) ∧
  foundValuesComment
    (scan (tokens {| tokens := ["# a -- one"; "a: 1"; "# a -- two";
                                "# more text"];
                     scanErr := None |})) = true ∧
  parseChartValuesFileComments slash_join
    (every_path
       (Some {| tokens := ["# a -- one"; "a: 1"; "# a -- two"; "# more text"];
                scanErr := None |}, None))
    "chart"
  = ({[ "a" := {| Description := "one"; Default := "" |} ]}, None) ∧
  ∃ (pre : list string) (l : string) (conts : list string),
    tokens {| tokens := ["# a -- one"; "a: 1"; "# a -- two"; "# more text"];
              scanErr := None |} = pre ++ l :: conts ∧
    foundValuesComment (scan pre) = false ∧
    starts_description l = true ∧
    forallb is_continuation conts = true ∧
    key (scan (tokens {| tokens := ["# a -- one"; "a: 1"; "# a -- two";
                                    "# more text"];
                         scanErr := None |})) = description_key l ∧
    description (scan (tokens {| tokens := ["# a -- one"; "a: 1";
                                            "# a -- two"; "# more text"];
                                 scanErr := None |})) =
      String.concat " " (description_text l :: (continuation_text <$> conts)) ∧
    parseChartValuesFileComments slash_join
      (every_path
         (Some {| tokens := ["# a -- one"; "a: 1"; "# a -- two";
                             "# more text"];
                  scanErr := None |}, None))
      "chart"
    = (keyToDescriptions (scan pre), None) ∧
    parseChartValuesFileComments slash_join
      (every_path
         (Some {| tokens := ["# a -- one"; "a: 1"; "# a -- two";
                             "# more text"];
                  scanErr := None |}, None))
      "chart"
    = parseChartValuesFileComments slash_join
        (every_path (Some {| tokens := pre; scanErr := None |}, None))
        "chart" ∧
    (parseChartValuesFileComments slash_join
       (every_path
          (Some {| tokens := ["# a -- one"; "a: 1"; "# a -- two";
                              "# more text"];
                   scanErr := None |}, None))
       "chart").1 !! description_key l
    = keyToDescriptions (scan pre) !! description_key l.
Proof.
  split; [reflexivity |]. split; [reflexivity |]. split; [reflexivity |].
  apply (C3_trailing_accumulation_dropped slash_join
           (every_path
              (Some {| tokens := ["# a -- one"; "a: 1"; "# a -- two";
                                  "# more text"];
                       scanErr := None |}, None))
           "chart"
           {| tokens := ["# a -- one"; "a: 1"; "# a -- two"; "# more text"];
              scanErr := None |}); reflexivity.
Defined.

(** C4: while accumulating, a line made of blanks, [# @default -- ] and a
    text closes the pending record with the pending description and that
    text as default, and the loop goes back to searching.  The line also
    matches the continuation pattern, but the default pattern is tried
    first and the description is left as it was. *)
Theorem C4_default_line_closes st (ws text : string) :
  foundValuesComment st = true →
  blank ws = true → is_line text = true →
(1 <? length (FindStringSubmatch commentContinuationRegex
                  (ws +:+ "# @default -- " +:+ text))) = true ∧
  loop_body st (ws +:+ "# @default -- " +:+ text) =
    {| foundValuesComment := false;
       key := key st;
       description := description st;
       keyToDescriptions :=
         <[key st := {| Description := description st; Default := text |}]>
           (keyToDescriptions st) |}.
Proof.
  intros Hst Hws Ht. split.
  - change (ws +:+ "# @default -- " +:+ text)
      with (ws +:+ "# " +:+ "@default -- " +:+ text).
    rewrite continuation_match; [done | done |].
    unfold is_line in *. by rewrite all_chars_app, Ht.
  - pose proof (default_match ws text Hws Ht) as Hm.
    rewrite loop_body_close; [| done |].
    + unfold closing_default, is_default. by rewrite Hm.
    + unfold is_continuation, is_default. by rewrite Hm.
Qed.

Lemma C4_default_line_closes_witness :
  foundValuesComment (pending "image.tag" "The image tag to use") = true ∧
  blank "  " = true ∧ is_line "latest" = true ∧
(1 <? length (FindStringSubmatch commentContinuationRegex
                  ("  " +:+ "# @default -- " +:+ "latest"))) = true ∧
  loop_body (pending "image.tag" "The image tag to use")
    ("  " +:+ "# @default -- " +:+ "latest") =
    {| foundValuesComment := false;
       key := "image.tag";
       description := "The image tag to use";
       keyToDescriptions :=
         <["image.tag" := {| Description := "The image tag to use";
                             Default := "latest" |}]> ∅ |}.
Proof.
  split; [reflexivity |]. split; [reflexivity |]. split; [reflexivity |].
  apply (C4_default_line_closes
           (pending "image.tag" "The image tag to use") "  " "latest");
    reflexivity.
Defined.

(** C5: when the file opens, every record of the map the function returns
    has as description the text of a description-start line followed by
    the texts of its continuation lines in line order, joined by single
    blanks, the key being the first group of that line.  When the last
    line closes a pending occurrence, the function returns the map of the
    lines before the occurrence with that record put under the key.  For
    the three lines [# foo -- This is], [# a description], [foo: bar] it
    returns the one record [This is a description] under [foo], with the
    empty default, and a nil error. *)
Theorem C5_description_joined_in_order
    path_Join os_Open (chartDirectory : string) f :
  os_Open (path_Join chartDirectory "values.yaml") = (Some f, None) →
  (∀ (k : string) rec,
     (parseChartValuesFileComments path_Join os_Open chartDirectory).1 !! k
     = Some rec →
     ∃ (pre : list string) (l : string) (conts : list string)
       (closing : string) (post : list string),
       tokens f = pre ++ (l :: conts ++ [closing]) ++ post ∧
       foundValuesComment (scan pre) = false ∧
       starts_description l = true ∧
       description_key l = k ∧
       forallb is_continuation conts = true ∧
       is_continuation closing = false ∧
       rec = {| Description :=
                  String.concat " "
                    (description_text l :: (continuation_text <$> conts));
                Default := closing_default closing |})
  ∧ (∀ (lines : list string) (closing : string),
       tokens f = lines ++ [closing] →
       foundValuesComment (scan lines) = true →
       is_continuation closing = false →
       ∃ (pre : list string) (l : string) (conts : list string),
         lines = pre ++ l :: conts ∧
         foundValuesComment (scan pre) = false ∧
         starts_description l = true ∧
         forallb is_continuation conts = true ∧
         parseChartValuesFileComments path_Join os_Open chartDirectory
         = (<[description_key l :=
                {| Description :=
                     String.concat " "
                       (description_text l :: (continuation_text <$> conts));
                   Default := closing_default closing |}]>
              (keyToDescriptions (scan pre)), None))
  ∧ parseChartValuesFileComments path_Join
      (every_path
         (Some {| tokens := ["# foo -- This is"; "# a description"; "foo: bar"];
                  scanErr := None |}, None))
      chartDirectory
    = ({[ "foo" := {| Description := "This is a description";
                      Default := "" |} ]}, None).
Proof.
  intros Hopen. rewrite (parse_opened _ _ _ _ Hopen).
  split; [| split; [| reflexivity]].
  - intros k rec Hrec. by apply record_provenance.
  - intros lines closing Hf Hacc Hc.
    destruct (accumulating_inv lines Hacc)
      as (pre & l & conts & -> & Hpre & Hl & Hall).
    exists pre, l, conts. repeat split; try done.
    by rewrite Hf, <- app_assoc, <- app_comm_cons, scan_app, accumulate_close.
Qed.

Lemma C5_description_joined_in_order_witness :
  every_path
    (Some
       {| tokens := ["x: 0"; "# foo -- This is"; "# a";
                 "  # long description"; "foo: bar"];
      scanErr := None |}, None)
    (slash_join "chart" "values.yaml")
  = (Some
       {| tokens := ["x: 0"; "# foo -- This is"; "# a";
                 "  # long description"; "foo: bar"];
      scanErr := None |}, None) ∧
  (∀ (k : string) rec,
     (parseChartValuesFileComments slash_join
        (every_path
           (Some
              {| tokens := ["x: 0"; "# foo -- This is"; "# a";
                 "  # long description"; "foo: bar"];
      scanErr := None |}, None))
        "chart").1 !! k
     = Some rec →
     ∃ (pre : list string) (l : string) (conts : list string)
       (closing : string) (post : list string),
       tokens
         {| tokens := ["x: 0"; "# foo -- This is"; "# a";
                 "  # long description"; "foo: bar"];
      scanErr := None |}
       = pre ++ (l :: conts ++ [closing]) ++ post ∧
       foundValuesComment (scan pre) = false ∧
       starts_description l = true ∧
       description_key l = k ∧
       forallb is_continuation conts = true ∧
       is_continuation closing = false ∧
       rec = {| Description :=
                  String.concat " "
                    (description_text l :: (continuation_text <$> conts));
                Default := closing_default closing |})
  ∧ (∀ (lines : list string) (closing : string),
       tokens
         {| tokens := ["x: 0"; "# foo -- This is"; "# a";
                 "  # long description"; "foo: bar"];
      scanErr := None |}
       = lines ++ [closing] →
       foundValuesComment (scan lines) = true →
       is_continuation closing = false →
       ∃ (pre : list string) (l : string) (conts : list string),
         lines = pre ++ l :: conts ∧
         foundValuesComment (scan pre) = false ∧
         starts_description l = true ∧
         forallb is_continuation conts = true ∧
         parseChartValuesFileComments slash_join
           (every_path
              (Some
                 {| tokens := ["x: 0"; "# foo -- This is"; "# a";
                 "  # long description"; "foo: bar"];
      scanErr := None |}, None))
           "chart"
         = (<[description_key l :=
                {| Description :=
                     String.concat " "
                       (description_text l :: (continuation_text <$> conts));
                   Default := closing_default closing |}]>
              (keyToDescriptions (scan pre)), None))
  ∧ parseChartValuesFileComments slash_join
      (every_path
         (Some {| tokens := ["# foo -- This is"; "# a description"; "foo: bar"];
                  scanErr := None |}, None))
      "chart"
    = ({[ "foo" := {| Description := "This is a description";
                      Default := "" |} ]}, None).
Proof.
  split; [reflexivity |].
  apply (C5_description_joined_in_order slash_join
           (every_path
              (Some
                 {| tokens := ["x: 0"; "# foo -- This is"; "# a";
                 "  # long description"; "foo: bar"];
      scanErr := None |}, None))
           "chart"
           {| tokens := ["x: 0"; "# foo -- This is"; "# a";
                 "  # long description"; "foo: bar"];
      scanErr := None |}).
  reflexivity.
Defined.

(** C6: when the file opens, the map the function returns holds under a
    key the record of the last occurrence of that key that was closed.
    Whatever the lines before it left under the key, and whatever follows
    as long as no later occurrence of the key is closed (lines swallowed
    as continuations and a trailing occurrence that is never closed
    included), the record found under the key is the one of this
    occurrence, and the error is nil. *)
Theorem C6_last_write_wins
    path_Join os_Open (chartDirectory : string) f
    (pre : list string) (l : string) (conts : list string) (closing : string)
    (post : list string) :
  os_Open (path_Join chartDirectory "values.yaml") = (Some f, None) →
  tokens f = pre ++ (l :: conts ++ [closing]) ++ post →
  foundValuesComment (scan pre) = false →
  starts_description l = true →
  forallb is_continuation conts = true →
  is_continuation closing = false →
  writes_key (description_key l) (scan (pre ++ l :: conts ++ [closing])) post
  = false →
  (parseChartValuesFileComments path_Join os_Open chartDirectory).1
    !! description_key l
  = Some {| Description :=
              String.concat " "
                (description_text l :: (continuation_text <$> conts));
            Default := closing_default closing |}
  ∧ (parseChartValuesFileComments path_Join os_Open chartDirectory).2 = None.
Proof.
  intros Hopen Hf Hpre Hl Hall Hc Hpost.
  rewrite (parse_opened _ _ _ _ Hopen). split; [| done]. simpl.
  rewrite Hf, app_assoc, scan_app.
  apply keep_record_unwritten; [| done].
  rewrite scan_app, accumulate_close by done. simpl.
  apply lookup_insert_eq.
Qed.

Lemma C6_last_write_wins_witness :
  every_path
    (Some {| tokens := ["# x -- first"; "x: 1"; "# x -- second"; "# text";
                        "x: 2"; "# y -- other"; "# x -- swallowed"; "y: 3";
                        "# x -- pending"];
             scanErr := None |}, None)
    (slash_join "chart" "values.yaml")
  = (Some {| tokens := ["# x -- first"; "x: 1"; "# x -- second"; "# text";
                        "x: 2"; "# y -- other"; "# x -- swallowed"; "y: 3";
                        "# x -- pending"];
             scanErr := None |}, None) ∧
  tokens {| tokens := ["# x -- first"; "x: 1"; "# x -- second"; "# text";
                       "x: 2"; "# y -- other"; "# x -- swallowed"; "y: 3";
                       "# x -- pending"];
            scanErr := None |}
  = ["# x -- first"; "x: 1"] ++ ("# x -- second" :: ["# text"] ++ ["x: 2"])
    ++ ["# y -- other"; "# x -- swallowed"; "y: 3"; "# x -- pending"] ∧
  foundValuesComment (scan ["# x -- first"; "x: 1"]) = false ∧
  starts_description "# x -- second" = true ∧
  forallb is_continuation ["# text"] = true ∧
  is_continuation "x: 2" = false ∧
  writes_key (description_key "# x -- second")
    (scan (["# x -- first"; "x: 1"] ++ "# x -- second" :: ["# text"]
           ++ ["x: 2"]))
    ["# y -- other"; "# x -- swallowed"; "y: 3"; "# x -- pending"] = false ∧
  (parseChartValuesFileComments slash_join
     (every_path
        (Some {| tokens := ["# x -- first"; "x: 1"; "# x -- second"; "# text";
                            "x: 2"; "# y -- other"; "# x -- swallowed";
                            "y: 3"; "# x -- pending"];
                 scanErr := None |}, None))
     "chart").1 !! description_key "# x -- second"
  = Some {| Description :=
              String.concat " "
                (description_text "# x -- second" ::
                   (continuation_text <$> ["# text"]));
            Default := closing_default "x: 2" |}
  ∧ (parseChartValuesFileComments slash_join
       (every_path
          (Some {| tokens := ["# x -- first"; "x: 1"; "# x -- second";
                              "# text"; "x: 2"; "# y -- other";
                              "# x -- swallowed"; "y: 3"; "# x -- pending"];
                   scanErr := None |}, None))
       "chart").2 = None.
Proof.
  split; [reflexivity |]. split; [reflexivity |]. split; [reflexivity |].
  split; [reflexivity |]. split; [reflexivity |]. split; [reflexivity |].
  split; [reflexivity |].
  apply (C6_last_write_wins slash_join
           (every_path
              (Some {| tokens := ["# x -- first"; "x: 1"; "# x -- second";
                                  "# text"; "x: 2"; "# y -- other";
                                  "# x -- swallowed"; "y: 3";
                                  "# x -- pending"];
                       scanErr := None |}, None))
           "chart"
           {| tokens := ["# x -- first"; "x: 1"; "# x -- second"; "# text";
                         "x: 2"; "# y -- other"; "# x -- swallowed"; "y: 3";
                         "# x -- pending"];
              scanErr := None |}
           ["# x -- first"; "x: 1"] "# x -- second" ["# text"] "x: 2"
           ["# y -- other"; "# x -- swallowed"; "y: 3"; "# x -- pending"]);
    reflexivity.
Defined.

(** C7, where the code departs from the claim.  When the file opens, the
    function returns the map of the lines the scanner delivered and a nil
    error, whatever made the scanner stop: [scanner.Err()] is not looked
    at.  So with two lines delivered and then a line above the token limit,
    it returns the map built from the two lines together with a nil
    error. *)
Theorem C7_scan_error_returns_partial_map :
  (∀ (lines : list string) (e : error),
     parseChartValuesFileComments slash_join
       (every_path (Some {| tokens := lines; scanErr := Some e |}, None))
       "chart"
     = (keyToDescriptions (scan lines), None))
  ∧ parseChartValuesFileComments slash_join
      (every_path (Some {| tokens := ["# a -- b"; "a: 1"];
                           scanErr := Some ErrTooLong |}, None))
      "chart"
    = ({[ "a" := {| Description := "b"; Default := "" |} ]}, None).
Proof. split; [intros lines e |]; reflexivity. Qed.

(** C8: when the file opens and no line the scanner delivers matches the
    description-start pattern, the function returns the empty map (and a
    nil error). *)
Theorem C8_no_description_start_empty_map
    path_Join os_Open (chartDirectory : string) f :
  os_Open (path_Join chartDirectory "values.yaml") = (Some f, None) →
  forallb (λ l, negb (starts_description l)) (tokens f) = true →
  parseChartValuesFileComments path_Join os_Open chartDirectory = (∅, None).
Proof.
  intros Hopen Hall. rewrite (parse_opened _ _ _ _ Hopen).
  unfold scan. by rewrite searching_only.
Qed.

Lemma C8_no_description_start_empty_map_witness :
  every_path
    (Some {| tokens := ["# only a comment"; "a: 1"; "# @default - x"];
             scanErr := None |}, None)
    (slash_join "chart" "values.yaml")
  = (Some {| tokens := ["# only a comment"; "a: 1"; "# @default - x"];
             scanErr := None |}, None) ∧
  forallb (λ l, negb (starts_description l))
    (tokens {| tokens := ["# only a comment"; "a: 1"; "# @default - x"];
               scanErr := None |}) = true ∧
  parseChartValuesFileComments slash_join
    (every_path
       (Some {| tokens := ["# only a comment"; "a: 1"; "# @default - x"];
                scanErr := None |}, None))
    "chart" = (∅, None).
Proof.
  split; [reflexivity |]. split; [reflexivity |].
  apply (C8_no_description_start_empty_map slash_join
           (every_path
              (Some {| tokens := ["# only a comment"; "a: 1"; "# @default - x"];
                       scanErr := None |}, None))
           "chart"
           {| tokens := ["# only a comment"; "a: 1"; "# @default - x"];
              scanErr := None |}); reflexivity.
Defined.

(** C9, as the code has it: while searching, a line made of blanks,
    [# @default -- ] and a text matches the description-start pattern.
    When the text neither holds the delimiter nor begins with its last
    three characters, the key is [@default] and the description is the
    text, so the line begins accumulation for the literal key [@default];
    once that accumulation is closed, the map has a record under
    [@default]. *)
Theorem C9_default_line_starts_key
    (pre : list string) (ws text : string)
    (conts : list string) (closing : string) :
  foundValuesComment (scan pre) = false →
  blank ws = true → is_line text = true →
  occurs delim (" " +:+ text) = false →
  forallb is_continuation conts = true →
  is_continuation closing = false →
  let line := ws +:+ "# @default -- " +:+ text in
  scan (pre ++ [line]) =
    {| foundValuesComment := true;
       key := "@default";
       description := text;
       keyToDescriptions := keyToDescriptions (scan pre) |}
  ∧ keyToDescriptions (scan (pre ++ line :: conts ++ [closing])) !! "@default"
    = Some {| Description :=
                String.concat " " (text :: (continuation_text <$> conts));
              Default := closing_default closing |}.
Proof.
  intros Hpre Hws Ht Hocc Hall Hc line.
  assert (FindStringSubmatch valuesDescriptionRegex line
          = [line; "@default"; text]) as Hm.
  { apply (description_match ws "@default" text); try done.
    by apply longest_key_no_later. }
  assert (starts_description line = true) as Hs.
  { unfold starts_description. by rewrite Hm. }
  assert (description_key line = "@default") as Hkey.
  { unfold description_key. by rewrite Hm. }
  assert (description_text line = text) as Htext.
  { unfold description_text. by rewrite Hm. }
  split.
  - by rewrite scan_snoc, loop_body_start, Hkey, Htext.
  - rewrite scan_app, accumulate_close by done. simpl.
    rewrite Hkey, Htext. apply lookup_insert_eq.
Qed.

Lemma C9_default_line_starts_key_witness :
  foundValuesComment (scan ["a: 1"]) = false ∧
  blank " " = true ∧ is_line "nil" = true ∧
  occurs delim (" " +:+ "nil") = false ∧
  forallb is_continuation ["# more"] = true ∧
  is_continuation "b: 2" = false ∧
  let line := " " +:+ "# @default -- " +:+ "nil" in
  scan (["a: 1"] ++ [line]) =
    {| foundValuesComment := true;
       key := "@default";
       description := "nil";
       keyToDescriptions := keyToDescriptions (scan ["a: 1"]) |}
  ∧ keyToDescriptions (scan (["a: 1"] ++ line :: ["# more"] ++ ["b: 2"]))
      !! "@default"
    = Some {| Description :=
                String.concat " " ("nil" :: (continuation_text <$> ["# more"]));
              Default := closing_default "b: 2" |}.
Proof.
  split; [reflexivity |]. split; [reflexivity |]. split; [reflexivity |].
  split; [reflexivity |]. split; [reflexivity |]. split; [reflexivity |].
  apply (C9_default_line_starts_key ["a: 1"] " " "nil" ["# more"] "b: 2");
    reflexivity.
Defined.

(** C9 as stated fails for a text that holds the delimiter: on
    [# @default -- a -- b] the key is [@default -- a], not [@default], and
    the description is [b]. *)
Lemma C9_counterexample :
  loop_body locals0 "# @default -- a -- b" =
    {| foundValuesComment := true; key := "@default -- a";
       description := "b"; keyToDescriptions := ∅ |} ∧
  ¬ (key (loop_body locals0 "# @default -- a -- b") = "@default" ∧
     description (loop_body locals0 "# @default -- a -- b") = "a -- b").
Proof.
  split; [reflexivity |].
  intros [H _]. vm_compute in H. discriminate H.
Qed.

(** C10: [Default] is a plain string.  A record closed by a line that is
    neither a default-override nor a comment has the empty string as its
    default, and the loop is then in the very state a line
    [# @default -- ] with an empty text would have left. *)
Theorem C10_no_default_is_empty_string st (line : string) :
  foundValuesComment st = true →
  is_terminator line = true →
  Default <$> keyToDescriptions (loop_body st line) !! key st = Some ""
  ∧ loop_body st line = loop_body st "# @default -- ".
Proof.
  intros Hst Hterm.
  assert (is_continuation line = false ∧ is_default line = false) as [Hc Hd].
  { unfold is_terminator, is_continuation in *.
    apply andb_prop in Hterm as [Hd Hn].
    apply negb_true_iff in Hd, Hn. by rewrite Hd, Hn. }
  rewrite (loop_body_close st line) by done.
  rewrite (loop_body_close st "# @default -- ") by done.
  unfold closing_default. rewrite Hd. simpl.
  by rewrite lookup_insert_eq.
Qed.

Lemma C10_no_default_is_empty_string_witness :
  foundValuesComment (pending "replicaCount" "Number of replicas") = true ∧
  is_terminator "replicaCount: 3" = true ∧
  Default <$>
    keyToDescriptions
      (loop_body (pending "replicaCount" "Number of replicas")
         "replicaCount: 3")
      !! key (pending "replicaCount" "Number of replicas") = Some ""
  ∧ loop_body (pending "replicaCount" "Number of replicas") "replicaCount: 3"
    = loop_body (pending "replicaCount" "Number of replicas") "# @default -- ".
Proof.
  split; [reflexivity |]. split; [reflexivity |].
  apply (C10_no_default_is_empty_string
           (pending "replicaCount" "Number of replicas") "replicaCount: 3");
    reflexivity.
Defined.

(** ** Further properties of the extractor *)

(** X1: every record of the result was written by a complete occurrence in
    the input: a description-start line met while searching, whose first
    group is the key, its continuation lines, and the line that closed
    it.  The record holds the joined texts and the default of the closing
    line. *)
Theorem X1_record_provenance (lines : list string) (k : string) rec :
  keyToDescriptions (scan lines) !! k = Some rec →
  ∃ (pre : list string) (l : string) (conts : list string)
    (closing : string) (post : list string),
    lines = pre ++ (l :: conts ++ [closing]) ++ post ∧
    foundValuesComment (scan pre) = false ∧
    starts_description l = true ∧
    description_key l = k ∧
    forallb is_continuation conts = true ∧
    is_continuation closing = false ∧
    rec = {| Description :=
               String.concat " "
                 (description_text l :: (continuation_text <$> conts));
             Default := closing_default closing |}.
Proof. apply record_provenance. Qed.

Lemma X1_record_provenance_witness :
  keyToDescriptions (scan ["# a -- one"; "# two"; "a: 1"; "b: 2"]) !! "a"
  = Some {| Description := "one two"; Default := "" |} ∧
  ∃ (pre : list string) (l : string) (conts : list string)
    (closing : string) (post : list string),
    ["# a -- one"; "# two"; "a: 1"; "b: 2"]
    = pre ++ (l :: conts ++ [closing]) ++ post ∧
    foundValuesComment (scan pre) = false ∧
    starts_description l = true ∧
    description_key l = "a" ∧
    forallb is_continuation conts = true ∧
    is_continuation closing = false ∧
    {| Description := "one two"; Default := "" |}
    = {| Description :=
           String.concat " "
             (description_text l :: (continuation_text <$> conts));
         Default := closing_default closing |}.
Proof.
  split; [reflexivity |].
  apply (X1_record_provenance ["# a -- one"; "# two"; "a: 1"; "b: 2"] "a").
  reflexivity.
Defined.

(** X2: whatever the lines hold, no key, description or default of the
    result holds a line feed. *)
Theorem X2_records_hold_no_line_feed (lines : list string) (k : string) rec :
  keyToDescriptions (scan lines) !! k = Some rec →
  is_line k = true ∧
  is_line (Description rec) = true ∧
  is_line (Default rec) = true.
Proof.
  intros Hrec.
  destruct (record_provenance _ _ _ Hrec)
    as (pre & l & conts & closing & post & _ & _ & _ & <- & _ & _ & ->).
  destruct (description_groups_lines l) as [Hk Ht].
  split; [done |]. split.
  - unfold Description. apply is_line_concat.
    change (is_line (description_text l)
            && forallb is_line (continuation_text <$> conts) = true).
    rewrite Ht. clear. induction conts as [|c conts IH]; [done |].
    change (is_line (continuation_text c)
            && forallb is_line (continuation_text <$> conts) = true).
    by rewrite continuation_text_line.
  - apply closing_default_line.
Qed.

Lemma X2_records_hold_no_line_feed_witness :
  keyToDescriptions (scan ["# a -- one"; "# two"; "# @default -- x"]) !! "a"
  = Some {| Description := "one two"; Default := "x" |} ∧
  is_line "a" = true ∧
  is_line (Description {| Description := "one two"; Default := "x" |}) = true ∧
  is_line (Default {| Description := "one two"; Default := "x" |}) = true.
Proof.
  split; [reflexivity |].
  apply (X2_records_hold_no_line_feed
           ["# a -- one"; "# two"; "# @default -- x"] "a").
  reflexivity.
Defined.

(** X3: the three patterns, read as shapes of a line.  The continuation
    pattern matches the lines made of blanks, a hash sign, a blank and a
    text without line feed; the default pattern those where the text
    starts with [@default -- ]; the description pattern those where the
    text holds the delimiter. *)
Theorem X3_patterns_as_shapes (line : string) :
  ((1 <? length (FindStringSubmatch commentContinuationRegex line)) = true ↔
   ∃ ws t : string,
     blank ws = true ∧ is_line t = true ∧ line = ws +:+ "# " +:+ t)
  ∧ (is_default line = true ↔
     ∃ ws t : string,
       blank ws = true ∧ is_line t = true ∧
       line = ws +:+ "# @default -- " +:+ t)
  ∧ (starts_description line = true ↔
     ∃ ws k t : string,
       blank ws = true ∧ is_line k = true ∧ is_line t = true ∧
       line = ws +:+ "# " +:+ k +:+ delim +:+ t).
Proof.
  split; [apply is_comment_iff |].
  split; [apply is_default_iff | apply starts_description_iff].
Qed.

(** X4: the patterns are nested.  A line the default pattern matches is
    matched by the description pattern, and a line the description pattern
    matches is matched by the continuation pattern. *)
Theorem X4_patterns_nested (line : string) :
  (is_default line = true → starts_description line = true)
  ∧ (starts_description line = true →
     (1 <? length (FindStringSubmatch commentContinuationRegex line)) = true).
Proof.
  split.
  - intros (ws & t & Hws & Ht & ->)%is_default_iff.
    apply starts_description_iff. by exists ws, "@default", t.
  - intros (ws & k & t & Hws & Hk & Ht & ->)%starts_description_iff.
    apply is_comment_iff. exists ws, (k +:+ delim +:+ t).
    repeat split; try done.
    unfold is_line in *. by rewrite !all_chars_app, Hk, Ht.
Qed.


(** X6: the loop never takes a record away: the keys present after some
    lines are still present after any further lines. *)
Theorem X6_keys_only_grow (xs ys : list string) :
  dom (keyToDescriptions (scan xs)) ⊆ dom (keyToDescriptions (scan (xs ++ ys))).
Proof. rewrite scan_app. apply dom_grows. Qed.

(** X7: scanning composes.  When the loop is searching after [xs], the
    result for [xs] followed by [ys] is the result for [ys] laid over the
    result for [xs]: keys of both, the record of [ys] where both have
    one. *)
Theorem X7_scan_composes (xs ys : list string) :
  foundValuesComment (scan xs) = false →
  keyToDescriptions (scan (xs ++ ys))
  = keyToDescriptions (scan ys) ∪ keyToDescriptions (scan xs).
Proof.
  intros Hxs. rewrite scan_app. unfold scan at 3.
  apply fold_over; simpl.
  - done.
  - intros Ht. by rewrite Ht in Hxs.
  - by rewrite (left_id_L ∅ (∪)).
Qed.

Lemma X7_scan_composes_witness :
  foundValuesComment (scan ["# a -- one"; "a: 1"; "# b -- two"; "b: 2"])
  = false ∧
  keyToDescriptions
    (scan (["# a -- one"; "a: 1"; "# b -- two"; "b: 2"]
           ++ ["# a -- three"; "a: 3"]))
  = keyToDescriptions (scan ["# a -- three"; "a: 3"])
    ∪ keyToDescriptions (scan ["# a -- one"; "a: 1"; "# b -- two"; "b: 2"]).
Proof.
  split; [reflexivity |].
  apply (X7_scan_composes ["# a -- one"; "a: 1"; "# b -- two"; "b: 2"]
           ["# a -- three"; "a: 3"]).
  reflexivity.
Defined.

(** X8: the result has at most as many records as the input has lines the
    description pattern matches. *)
Theorem X8_records_bounded (lines : list string) :
  size (keyToDescriptions (scan lines))
  ≤ length (List.filter starts_description lines).
Proof. pose proof (size_bound lines). lia. Qed.

(** X9: the error the function returns is the error of [os.Open], nil or
    not, whatever its kind; when it is not nil the map is empty. *)
Theorem X9_error_is_open_error
    path_Join os_Open (chartDirectory : string) :
  (parseChartValuesFileComments path_Join os_Open chartDirectory).2
  = (os_Open (path_Join chartDirectory "values.yaml")).2
  ∧ (is_Some (os_Open (path_Join chartDirectory "values.yaml")).2 →
     (parseChartValuesFileComments path_Join os_Open chartDirectory).1 = ∅).
Proof.
  unfold parseChartValuesFileComments.
  destruct (os_Open _) as [vf [e|]]; simpl.
  - by destruct e.
  - split; [by destruct vf |]. by intros [? ?].
Qed.

(** ** Properties of the rest of the chart loader *)

(** Strings compare as Go compares them: a total order read bytewise. *)
Lemma ltb_negb_leb (s1 s2 : string) :
  String.ltb s1 s2 = negb (String.leb s2 s1).
Proof.
  unfold String.ltb, String.leb. rewrite String.compare_antisym.
  by destruct (String.compare s2 s1).
Qed.

Lemma ltb_trans (s1 s2 s3 : string) :
  String.ltb s1 s2 = true → String.ltb s2 s3 = true →
  String.ltb s1 s3 = true.
Proof.
  rewrite !ltb_negb_leb, !negb_true_iff. intros H21 H32.
  destruct (String.leb s3 s1) eqn:H31; [| done].
  destruct (String.leb_total s1 s2) as [H12 | H]; [| congruence].
  assert (String.le s3 s2) as H.
  { transitivity s1; unfold String.le; by apply Is_true_true. }
  apply Is_true_true in H. congruence.
Qed.

(** X10: the order handed to [sort.Slice] is a strict weak order on the
    dependencies: no dependency is below itself, the order is transitive,
    and two dependencies neither of which is below the other have the same
    sort key. *)
Theorem X10_requirementLess_strict_weak_order :
  (∀ a, requirementLess a a = false)
  ∧ (∀ a b c, requirementLess a b = true → requirementLess b c = true →
              requirementLess a c = true)
  ∧ (∀ a b, requirementLess a b = false → requirementLess b a = false →
            requirementKey a = requirementKey b).
Proof.
  unfold requirementLess. split; [| split].
  - intros a. rewrite ltb_negb_leb. apply negb_false_iff.
    apply Is_true_true. change (String.le (requirementKey a) (requirementKey a)).
    done.
  - intros a b c. apply ltb_trans.
  - intros a b. rewrite !ltb_negb_leb, !negb_false_iff.
    intros Hba Hab. by apply String.leb_antisym.
Qed.

(** X11: two dependencies whose names hold no slash have the same sort key
    only when they have the same repository and the same name. *)
Theorem X11_requirementKey_injective (a b : ChartRequirementsItem.t) :
  occurs "/" (ChartRequirementsItem.Name a) = false →
  occurs "/" (ChartRequirementsItem.Name b) = false →
  requirementKey a = requirementKey b →
  ChartRequirementsItem.Repository a = ChartRequirementsItem.Repository b
  ∧ ChartRequirementsItem.Name a = ChartRequirementsItem.Name b.
Proof.
  unfold requirementKey.
  assert (∀ r n r' n' : string,
            occurs "/" n = false →
            r +:+ "/" +:+ n = r' +:+ "/" +:+ n' →
            String.length r ≤ String.length r' →
            r = r' ∧ n = n') as Hhalf.
  { intros r n r' n' Hn Heq Hlen.
    destruct (append_eq_split r _ r' _ Heq Hlen) as (d & -> & Hd).
    destruct d as [|c d]; unapp_in Hd.
    - injection Hd as <-. by rewrite append_nil_r.
    - injection Hd as _ ->.
      change (occurs "/" (d +:+ "/" +:+ n') = false) in Hn.
      by rewrite occurs_app in Hn. }
  intros Ha Hb Heq.
  destruct (decide (String.length (ChartRequirementsItem.Repository a)
                    ≤ String.length (ChartRequirementsItem.Repository b))).
  - by apply Hhalf.
  - symmetry in Heq. destruct (Hhalf _ _ _ _ Hb Heq) as [-> ->]; [lia | done].
Qed.

Lemma X11_requirementKey_injective_witness :
  let a := {| ChartRequirementsItem.Name := "redis";
              ChartRequirementsItem.Version := "1.0";
              ChartRequirementsItem.Repository := "https://charts.example" |} in
  let b := {| ChartRequirementsItem.Name := "redis";
              ChartRequirementsItem.Version := "2.0";
              ChartRequirementsItem.Repository := "https://charts.example" |} in
  occurs "/" (ChartRequirementsItem.Name a) = false ∧
  occurs "/" (ChartRequirementsItem.Name b) = false ∧
  requirementKey a = requirementKey b ∧
  ChartRequirementsItem.Repository a = ChartRequirementsItem.Repository b
  ∧ ChartRequirementsItem.Name a = ChartRequirementsItem.Name b.
Proof.
  intros a b.
  split; [reflexivity |]. split; [reflexivity |]. split; [reflexivity |].
  apply (X11_requirementKey_injective a b); reflexivity.
Defined.

Section ChartFilesFacts.

Variable path_Join : string → string → string.
Variable os_Stat : string → option error.
Variable ioutil_ReadFile : string → string * option error.
Variable yaml_error : Type.
Variable Values : Type.
Variable nil_Values : Values.
Variable make_Values : Values.
Variable yaml_Unmarshal_ChartMeta
  : string → ChartMeta.t → ChartMeta.t * option yaml_error.
Variable yaml_Unmarshal_ChartRequirements
  : string → ChartRequirements.t → ChartRequirements.t * option yaml_error.
Variable yaml_Unmarshal_Values
  : string → Values → Values * option yaml_error.
Variable sort_Slice
  : (ChartRequirementsItem.t → ChartRequirementsItem.t → bool) →
    list ChartRequirementsItem.t → list ChartRequirementsItem.t.
Variable os_Open : string → option File * option error.

Ltac step_bind := unfold outcome_bind; cbv beta iota zeta.

(** An error [getYamlFileContents] returns comes from [os.Stat]. *)
Lemma getYamlFileContents_error (filename : string) c e :
  getYamlFileContents os_Stat ioutil_ReadFile yaml_error filename
  = Returns (c, Some e) →
  os_IsNotExist e = true ∧ os_Stat filename = Some e ∧ c = "".
Proof.
  unfold getYamlFileContents.
  destruct (os_IsNotExist_err (os_Stat filename)) eqn:Hs.
  - intros [= <- He]. rewrite He in Hs. done.
  - by destruct (ioutil_ReadFile filename) as [c' [e'|]].
Qed.

(** Both branches of [isErrorInReadingNecessaryFile] on an error. *)
Lemma isError_Some (filePath : string) e :
  isErrorInReadingNecessaryFile filePath (Some e) = true.
Proof. unfold isErrorInReadingNecessaryFile. by destruct (os_IsNotExist e). Qed.

Lemma parseChartFile_error (chartDirectory : string) meta e :
  parseChartFile path_Join os_Stat ioutil_ReadFile yaml_error
    yaml_Unmarshal_ChartMeta chartDirectory = Returns (meta, Some e) →
  os_IsNotExist e = true.
Proof.
  unfold parseChartFile.
  destruct (getYamlFileContents _ _ _ _) as [[c [e1|]] | p] eqn:H1; step_bind;
    [| | done].
  - rewrite isError_Some. intros [= _ <-].
    by destruct (getYamlFileContents_error _ _ _ H1).
  - unfold yamlLoadAndCheck.
    by destruct (yaml_Unmarshal_ChartMeta _ _) as [m [ey|]].
Qed.

Lemma parseChartRequirementsFile_error
    (chartDirectory apiVersion : string) r e :
  parseChartRequirementsFile path_Join os_Stat ioutil_ReadFile yaml_error
    yaml_Unmarshal_ChartRequirements sort_Slice chartDirectory apiVersion
  = Returns (r, Some e) →
  os_IsNotExist e = true.
Proof.
  assert (∀ requirementsPath : string,
    outcome_bind
      (getYamlFileContents os_Stat ioutil_ReadFile yaml_error requirementsPath)
      (λ '(yamlFileContents, err),
         if isErrorInReadingNecessaryFile requirementsPath err
         then Returns (ChartRequirements.zero, err)
         else
           outcome_bind
             (yamlLoadAndCheck yaml_error yaml_Unmarshal_ChartRequirements
                yamlFileContents ChartRequirements.zero)
             (λ chartRequirements,
                Returns
                  ({| ChartRequirements.Dependencies :=
                        sort_Slice requirementLess
                          (ChartRequirements.Dependencies chartRequirements) |},
                   None)))
    = Returns (r, Some e) → os_IsNotExist e = true) as Hload.
  { intros requirementsPath.
    destruct (getYamlFileContents _ _ _ _) as [[c [e1|]] | p] eqn:H1;
      step_bind; [| | done].
    - rewrite isError_Some. intros [= _ <-].
      by destruct (getYamlFileContents_error _ _ _ H1).
    - unfold yamlLoadAndCheck.
      by destruct (yaml_Unmarshal_ChartRequirements _ _) as [m [ey|]]. }
  unfold parseChartRequirementsFile.
  destruct (String.eqb apiVersion "v1"); [| apply Hload].
  destruct (os_IsNotExist_err _); [done | apply Hload].
Qed.

Lemma parseChartValuesFile_error (chartDirectory : string) v e :
  parseChartValuesFile path_Join os_Stat ioutil_ReadFile yaml_error
    Values make_Values yaml_Unmarshal_Values chartDirectory
  = Returns (v, Some e) →
  os_IsNotExist e = true ∧
  os_Stat (path_Join chartDirectory "values.yaml") = Some e.
Proof.
  unfold parseChartValuesFile.
  destruct (getYamlFileContents _ _ _ _) as [[c [e1|]] | p] eqn:H1; step_bind;
    [| | done].
  - rewrite isError_Some. intros [= _ <-].
    by destruct (getYamlFileContents_error _ _ _ H1) as (? & ? & _).
  - unfold yamlLoadAndCheck.
    by destruct (yaml_Unmarshal_Values _ _) as [m [ey|]].
Qed.

Lemma comments_error (chartDirectory : string) m e :
  parseChartValuesFileComments path_Join os_Open chartDirectory = (m, Some e) →
  (os_Open (path_Join chartDirectory "values.yaml")).2 = Some e ∧ m = ∅.
Proof.
  unfold parseChartValuesFileComments.
  destruct (os_Open _) as [vf [e'|]]; cbv beta iota zeta.
  - rewrite (isError_Some _ e'). by intros [= <- <-].
  - simpl. by destruct vf.
Qed.

(** X12: the only error [getYamlFileContents] returns is the not-exist
    error of [os.Stat], with nil contents.  When [os.Stat] reports
    anything else, a nil error or for instance a lack of permission, the
    file is read, and a failure to read it is a panic. *)
Theorem X12_getYamlFileContents_errors (filename : string) :
  (∀ c e,
     getYamlFileContents os_Stat ioutil_ReadFile yaml_error filename
     = Returns (c, Some e) →
     os_IsNotExist e = true ∧ os_Stat filename = Some e ∧ c = "")
  ∧ (∀ e,
       os_IsNotExist_err (os_Stat filename) = false →
       (ioutil_ReadFile filename).2 = Some e →
       getYamlFileContents os_Stat ioutil_ReadFile yaml_error filename
       = Panics (PanicRead yaml_error e)).
Proof.
  split; [apply getYamlFileContents_error |].
  intros e Hs Hr. unfold getYamlFileContents. rewrite Hs.
  destruct (ioutil_ReadFile filename) as [c err]. simpl in Hr. by subst.
Qed.

(** X13: for a chart of API version [v1], [parseChartRequirementsFile]
    returns no error: without [requirements.yaml] it returns no
    dependencies and a nil error, and with it the file is loaded or the
    function panics. *)
Theorem X13_requirements_v1_no_error (chartDirectory : string) :
  (os_IsNotExist_err
     (os_Stat (path_Join chartDirectory "requirements.yaml")) = true →
   parseChartRequirementsFile path_Join os_Stat ioutil_ReadFile yaml_error
     yaml_Unmarshal_ChartRequirements sort_Slice chartDirectory "v1"
   = Returns ({| ChartRequirements.Dependencies := [] |}, None))
  ∧ (∀ r err,
       parseChartRequirementsFile path_Join os_Stat ioutil_ReadFile yaml_error
         yaml_Unmarshal_ChartRequirements sort_Slice chartDirectory "v1"
       = Returns (r, err) →
       err = None).
Proof.
  unfold parseChartRequirementsFile. simpl.
  destruct (os_IsNotExist_err (os_Stat _)) eqn:Hs.
  - split; [done |]. by intros r err [= _ <-].
  - split; [done |]. intros r err.
    unfold getYamlFileContents. rewrite Hs.
    destruct (ioutil_ReadFile _) as [c [e|]]; simpl; [done |].
    unfold yamlLoadAndCheck.
    destruct (yaml_Unmarshal_ChartRequirements _ _) as [r' [e|]]; simpl;
      [done |].
    by intros [= _ <-].
Qed.

(** X14: an error [ParseChartInformation] returns is a not-exist error of
    [os.Stat] or the error of opening [values.yaml]; every other failure
    is a panic.  With an error the result holds no description. *)
Theorem X14_ParseChartInformation_errors (chartDirectory : string) info e :
  ParseChartInformation path_Join os_Stat ioutil_ReadFile os_Open yaml_error
    Values nil_Values make_Values yaml_Unmarshal_ChartMeta
    yaml_Unmarshal_ChartRequirements yaml_Unmarshal_Values sort_Slice
    chartDirectory
  = Returns (info, Some e) →
  (os_IsNotExist e = true
   ∨ (os_Open (path_Join chartDirectory "values.yaml")).2 = Some e)
  ∧ ChartValuesDescriptions Values info = ∅.
Proof.
  unfold ParseChartInformation.
  destruct (parseChartFile _ _ _ _ _ _) as [[meta [e1|]] | p] eqn:H1; simpl;
    [| | done].
  { intros [= <- <-]. split; [left | done].
    by apply (parseChartFile_error _ _ _ H1). }
  destruct (parseChartRequirementsFile _ _ _ _ _ _ _ _)
    as [[req [e2|]] | p] eqn:H2; simpl; [| | done].
  { intros [= <- <-]. split; [left | done].
    by apply (parseChartRequirementsFile_error _ _ _ _ H2). }
  destruct (parseChartValuesFile _ _ _ _ _ _ _ _)
    as [[vals [e3|]] | p] eqn:H3; simpl; [| | done].
  { intros [= <- <-]. split; [left | done].
    by destruct (parseChartValuesFile_error _ _ _ H3). }
  destruct (parseChartValuesFileComments _ _ _) as [m [e4|]] eqn:H4;
    [| done].
  intros [= <- <-]. simpl.
  destruct (comments_error _ _ _ H4) as [Ho ->]. by split; [right |].
Qed.

(** X15: when [os.Stat] reports that [values.yaml] does not exist, the
    outcome of [ParseChartInformation] does not depend on [os.Open]: the
    comments are not looked for. *)
Theorem X15_missing_values_never_opened (chartDirectory : string)
    (os_Open' : string → option File * option error) :
  os_IsNotExist_err (os_Stat (path_Join chartDirectory "values.yaml")) = true →
  ParseChartInformation path_Join os_Stat ioutil_ReadFile os_Open yaml_error
    Values nil_Values make_Values yaml_Unmarshal_ChartMeta
    yaml_Unmarshal_ChartRequirements yaml_Unmarshal_Values sort_Slice
    chartDirectory
  = ParseChartInformation path_Join os_Stat ioutil_ReadFile os_Open' yaml_error
      Values nil_Values make_Values yaml_Unmarshal_ChartMeta
      yaml_Unmarshal_ChartRequirements yaml_Unmarshal_Values sort_Slice
      chartDirectory.
Proof.
  intros Hs. unfold ParseChartInformation.
  destruct (parseChartFile _ _ _ _ _ _) as [[meta [e1|]] | p]; simpl;
    [done | | done].
  destruct (parseChartRequirementsFile _ _ _ _ _ _ _ _)
    as [[req [e2|]] | p]; simpl; [done | | done].
  unfold parseChartValuesFile, getYamlFileContents. rewrite Hs. step_bind.
  destruct (os_Stat _) as [e|]; [| done].
  by rewrite isError_Some.
Qed.

End ChartFilesFacts.

Lemma X14_ParseChartInformation_errors_witness :
  example_ParseChartInformation (every_path (None, Some ErrPermission)) "chart"
  = Returns
      ({| ChartMeta_ := ChartMeta.zero;
          ChartRequirements_ := ChartRequirements.zero;
          ChartDirectory := "chart";
          ChartValues := tt;
          ChartValuesDescriptions := ∅ |}, Some ErrNotExist) ∧
  (os_IsNotExist ErrNotExist = true
   ∨ (every_path (None, Some ErrPermission)
        (slash_join "chart" "values.yaml")).2 = Some ErrNotExist)
  ∧ ChartValuesDescriptions unit
      {| ChartMeta_ := ChartMeta.zero;
         ChartRequirements_ := ChartRequirements.zero;
         ChartDirectory := "chart";
         ChartValues := tt;
         ChartValuesDescriptions := ∅ |} = ∅.
Proof.
  split; [reflexivity |].
  apply (X14_ParseChartInformation_errors slash_join stat_without_values
           (λ _, ("", None)) unit unit tt tt
           (λ _ m, (m, None)) (λ _ r, (r, None)) (λ _ v, (v, None)) (λ _ l, l)
           (every_path (None, Some ErrPermission)) "chart").
  reflexivity.
Defined.

Lemma X15_missing_values_never_opened_witness :
  os_IsNotExist_err (stat_without_values (slash_join "chart" "values.yaml"))
  = true ∧
  example_ParseChartInformation (every_path (None, Some ErrPermission)) "chart"
  = example_ParseChartInformation
      (every_path (Some {| tokens := ["# a -- b"; "a: 1"]; scanErr := None |},
                   None))
      "chart".
Proof.
  split; [reflexivity |].
  apply (X15_missing_values_never_opened slash_join stat_without_values
           (λ _, ("", None)) unit unit tt tt
           (λ _ m, (m, None)) (λ _ r, (r, None)) (λ _ v, (v, None)) (λ _ l, l)
           (every_path (None, Some ErrPermission)) "chart"
           (every_path
              (Some {| tokens := ["# a -- b"; "a: 1"]; scanErr := None |},
               None))).
  reflexivity.
Defined.

Lemma X4_patterns_nested_witness :
  is_default "  # @default -- nil" = true ∧
  starts_description "  # @default -- nil" = true ∧
  (1 <? length (FindStringSubmatch commentContinuationRegex
                  "  # @default -- nil")) = true.
Proof.
  split; [reflexivity |].
  destruct (X4_patterns_nested "  # @default -- nil") as [Hd Hs].
  split; [apply Hd | apply Hs, Hd]; reflexivity.
Defined.


Lemma X9_error_is_open_error_witness :
  is_Some (every_path (None, Some ErrPermission)
             (slash_join "chart" "values.yaml")).2 ∧
  (parseChartValuesFileComments slash_join
     (every_path (None, Some ErrPermission)) "chart").1 = ∅.
Proof.
  assert (is_Some (every_path (None, Some ErrPermission)
                     (slash_join "chart" "values.yaml")).2) as H.
  { exists ErrPermission. reflexivity. }
  split; [exact H |].
  destruct (X9_error_is_open_error slash_join
              (every_path (None, Some ErrPermission)) "chart") as [_ Hempty].
  apply Hempty, H.
Defined.

Lemma X12_getYamlFileContents_errors_witness :
  (getYamlFileContents (λ _, Some ErrNotExist) (λ _, ("", None)) unit
     "chart/Chart.yaml" = Returns ("", Some ErrNotExist) ∧
   os_IsNotExist ErrNotExist = true)
  ∧ (os_IsNotExist_err (Some ErrPermission) = false ∧
     getYamlFileContents (λ _, Some ErrPermission)
       (λ _, ("", Some ErrPermission)) unit "chart/Chart.yaml"
     = Panics (PanicRead unit ErrPermission)).
Proof.
  split.
  - split; [reflexivity |].
    destruct (X12_getYamlFileContents_errors (λ _, Some ErrNotExist)
                (λ _, ("", None)) unit "chart/Chart.yaml") as [Hret _].
    apply (Hret "" ErrNotExist). reflexivity.
  - split; [reflexivity |].
    destruct (X12_getYamlFileContents_errors (λ _, Some ErrPermission)
                (λ _, ("", Some ErrPermission)) unit "chart/Chart.yaml")
      as [_ Hpanic].
    apply Hpanic; reflexivity.
Defined.

Lemma X13_requirements_v1_no_error_witness :
  os_IsNotExist_err
    ((λ _ : string, Some ErrNotExist) (slash_join "chart" "requirements.yaml"))
  = true ∧
  parseChartRequirementsFile slash_join (λ _, Some ErrNotExist)
    (λ _, ("", None)) unit (λ _ r, (r, None)) (λ _ l, l) "chart" "v1"
  = Returns ({| ChartRequirements.Dependencies := [] |}, None).
Proof.
  split; [reflexivity |].
  destruct (X13_requirements_v1_no_error slash_join (λ _, Some ErrNotExist)
              (λ _, ("", None)) unit (λ _ r, (r, None)) (λ _ l, l) "chart")
    as [Hmissing _].
  apply Hmissing. reflexivity.
Defined.
